(** * gmail-tripit-web: scorer, candidate store and review routes

    A shallow embedding of
      - the classifier (calculateConfidenceScore, isCandidateForReview),
      - the DatabaseManager class of backend/src/database.ts,
      - the route handlers of backend/src/routes.ts,
    followed by the properties of the review workflow.

    Conventions of the embedding.
      - A JavaScript string is the [string] of the bytes of its UTF-8
        encoding, which is also how SQLite stores it.  The built-in
        String.prototype.toLowerCase is a parameter of the classifier.
      - An SQLite INTEGER and a JavaScript number that holds an integer
        are a [Z]; a number passed on to SQLite is a [number], which may
        also be no integer at all.
      - An SQLite table is the list of its rows in rowid order; a column
        with DEFAULT CURRENT_TIMESTAMP receives the clock reading (in
        seconds) handed to the statement that inserts the row.
      - A statement of better-sqlite3 either runs or throws; the statements
        of a handler consume a list of fault flags, one per statement. *)

From Stdlib Require Import List ZArith Bool Ascii String Lia Permutation Sorted.
Import ListNotations.

Local Open Scope string_scope.
Local Open Scope Z_scope.

(* ================================================================== *)
(** ** JavaScript strings and the regular expressions of the classifier *)

Module JsString.

Definition isUpper (c : ascii) : bool :=
  ((65 <=? N_of_ascii c) && (N_of_ascii c <=? 90))%N.

Definition isLower (c : ascii) : bool :=
  ((97 <=? N_of_ascii c) && (N_of_ascii c <=? 122))%N.

Definition isDigit (c : ascii) : bool :=
  ((48 <=? N_of_ascii c) && (N_of_ascii c <=? 57))%N.

(** The class \w of a RegExp without the u flag: [A-Za-z0-9_]. *)
Definition isWord (c : ascii) : bool :=
  isUpper c || isLower c || isDigit c || (N_of_ascii c =? 95)%N.

Definition lowerChar (c : ascii) : ascii :=
  if isUpper c then ascii_of_N (N_of_ascii c + 32) else c.

(** Lowers the ASCII letters A-Z and leaves every other byte.  This is
    what String.prototype.toLowerCase does to a text of ASCII characters,
    and how SQLite folds case. *)
Fixpoint asciiLowerCase (s : string) : string :=
  match s with
  | EmptyString => EmptyString
  | String c s' => String (lowerChar c) (asciiLowerCase s')
  end.

(** A JavaScript number as a bound parameter of a statement: an integer
    value, or a value that is no integer (a fraction, NaN, an infinity). *)
Inductive number : Type :=
| Int (z : Z)
| NonInteger.

(** [includes s needle] is [s.includes(needle)]. *)
Fixpoint includes (s needle : string) : bool :=
  String.prefix needle s ||
  match s with
  | EmptyString => false
  | String _ s' => includes s' needle
  end.

(** [some f l] is [l.some(f)]. *)
Definition some {A} (f : A -> bool) (l : list A) : bool := existsb f l.

(** [join sep l] is [l.join(sep)]. *)
Definition join (sep : string) (l : list string) : string := String.concat sep l.

(** The fragment of RegExp syntax the classifier uses: the assertion \b
    and a character class with a bounded repetition {lo,hi}. *)
Inductive atom : Type :=
| WordB
| Rep (cls : ascii -> bool) (lo hi : nat).

Definition regex := list atom.

Definition isWordOpt (c : option ascii) : bool :=
  match c with Some c => isWord c | None => false end.

Definition next (s : string) : option ascii :=
  match s with EmptyString => None | String c _ => Some c end.

(** \b holds between [prev] and the rest [s] when exactly one side is a
    word character. *)
Definition boundary (prev : option ascii) (s : string) : bool :=
  xorb (isWordOpt prev) (isWordOpt (next s)).

(** Does [r] match at the current position?  [prev] is the character
    before the position and [s] the input from the position on.  A
    repetition tries every admissible count, as backtracking does. *)
Fixpoint matchHere (r : regex) (prev : option ascii) (s : string) : bool :=
  match r with
  | [] => true
  | WordB :: r' => boundary prev s && matchHere r' prev s
  | Rep cls lo hi :: r' =>
      (fix rep (lo hi : nat) (prev : option ascii) (s : string) : bool :=
         (match lo with O => matchHere r' prev s | S _ => false end) ||
         match hi, s with
         | S hi', String c s' => cls c && rep (Nat.pred lo) hi' (Some c) s'
         | _, _ => false
         end) lo hi prev s
  end.

Fixpoint searchFrom (r : regex) (prev : option ascii) (s : string) : bool :=
  matchHere r prev s ||
  match s with
  | EmptyString => false
  | String c s' => searchFrom r (Some c) s'
  end.

(** [test r s] is [r.test(s)] for a RegExp without flags. *)
Definition test (r : regex) (s : string) : bool := searchFrom r None s.

End JsString.

(* ================================================================== *)
(** ** The classifier *)

Module Classifier.
Import JsString.

Record EmailData : Type := mkEmailData {
  html : string;
  from_email : string;
  subject : string;
  plain_text : option string;
  message_id : string;
  date : string
}.

Record ConfidenceResult : Type := mkConfidenceResult {
  score : Z;
  reasons : list string
}.

Definition KNOWN_AIRLINE_SENDERS : list string :=
  [ "united.com"; "delta.com"; "aa.com"; "southwest.com"; "jetblue.com";
    "alaskaair.com"; "spirit.com"; "frontier.com"; "allegiantair.com" ].

Definition KNOWN_OTA_SENDERS : list string :=
  [ "expedia.com"; "kayak.com"; "priceline.com"; "booking.com"; "orbitz.com";
    "travelocity.com"; "hotwire.com"; "cheapoair.com" ].

Definition CONFIRMATION_KEYWORDS : list string :=
  [ "confirmation"; "confirmed"; "itinerary"; "booking"; "receipt" ].

Definition FLIGHT_KEYWORDS : list string :=
  [ "flight"; "airline"; "boarding"; "departure"; "arrival" ].

Definition CONFIDENCE_THRESHOLD : Z := 30.

Definition hasFlightReservationSchema (html : string) : bool :=
  includes html "FlightReservation" || includes html "schema.org/FlightReservation".

Section LowerCase.
(** String.prototype.toLowerCase, which follows the Unicode case
    mappings. *)
Variable toLowerCase : string -> string.

Definition isKnownSender (email : string) : bool :=
  let lowerEmail := toLowerCase email in
  some (fun domain => includes lowerEmail domain) KNOWN_AIRLINE_SENDERS ||
  some (fun domain => includes lowerEmail domain) KNOWN_OTA_SENDERS.

Definition hasConfirmationKeywords (subject : string) : bool :=
  let lowerSubject := toLowerCase subject in
  some (fun kw => includes lowerSubject kw) CONFIRMATION_KEYWORDS.

Definition hasFlightKeywords (subject : string) : bool :=
  let lowerSubject := toLowerCase subject in
  some (fun kw => includes lowerSubject kw) FLIGHT_KEYWORDS.

(** /\b[A-Z0-9]{6}\b/ *)
Definition reConfirmationCode : regex :=
  [ WordB; Rep (fun c => isUpper c || isDigit c) 6 6; WordB ].

(** /\b[A-Z]{2}\d{1,4}\b/ *)
Definition reFlightNumber : regex :=
  [ WordB; Rep isUpper 2 2; Rep isDigit 1 4; WordB ].

(** /\b[A-Z]{3}\b/ *)
Definition reAirportCode : regex :=
  [ WordB; Rep isUpper 3 3; WordB ].

Definition detectFlightMarkers (text : string) : list string :=
  let markers : list string := [] in
  let markers :=
    if test reConfirmationCode text then (markers ++ ["confirmation code"])%list else markers in
  let markers :=
    if test reFlightNumber text then (markers ++ ["flight number"])%list else markers in
  let markers :=
    if test reAirportCode text then (markers ++ ["airport code"])%list else markers in
  markers.

(** One rule of calculateConfidenceScore: [score += w; reasons.push(r)]
    when the condition holds. *)
Definition rule (cond : bool) (w : Z) (r : string) (acc : ConfidenceResult)
  : ConfidenceResult :=
  if cond then mkConfidenceResult (score acc + w) (reasons acc ++ [r])%list else acc.

Definition calculateConfidenceScore (emailData : EmailData) : ConfidenceResult :=
  let acc := mkConfidenceResult 0 [] in
  let acc := rule (hasFlightReservationSchema (html emailData)) 50
                  "Has FlightReservation schema markup" acc in
  let acc := rule (isKnownSender (from_email emailData)) 20
                  "Known airline/OTA sender" acc in
  let acc := rule (hasConfirmationKeywords (subject emailData)) 15
                  "Confirmation keyword in subject" acc in
  let acc := rule (hasFlightKeywords (subject emailData)) 10
                  "Flight keyword in subject" acc in
  (* emailData.plain_text || '' *)
  let text := match plain_text emailData with Some t => t | None => "" end in
  let markersFound := detectFlightMarkers text in
  let acc := rule (2 <=? Z.of_nat (List.length markersFound)) 10
                  ("Flight markers: " ++ join ", " markersFound) acc in
  acc.

Record CandidateVerdict : Type := mkCandidateVerdict {
  isCandidate : bool;
  verdict_score : Z;
  verdict_reasons : list string
}.

Definition isCandidateForReview (emailData : EmailData) : CandidateVerdict :=
  let r := calculateConfidenceScore emailData in
  mkCandidateVerdict (CONFIDENCE_THRESHOLD <=? score r) (score r) (reasons r).

End LowerCase.

End Classifier.

(* ================================================================== *)
(** ** SQL helpers: ORDER BY, LIMIT, LIKE *)

Module Sql.

Section OrderBy.
Context {A : Type}.
(** [before a b]: the ORDER BY terms do not put [b] strictly ahead of
    [a].  Rows are inserted from the right, so rows that compare equal
    keep their rowid order. *)
Variable before : A -> A -> bool.

Fixpoint insertRow (x : A) (l : list A) : list A :=
  match l with
  | [] => [x]
  | y :: l' => if before x y then x :: y :: l' else y :: insertRow x l'
  end.

Fixpoint orderBy (l : list A) : list A :=
  match l with
  | [] => []
  | x :: l' => insertRow x (orderBy l')
  end.
End OrderBy.

(** A number bound to LIMIT ? must be an integer that SQLite can hold:
    better-sqlite3 hands the number over as a double, and SQLite accepts
    it when it is an integer strictly between -2^63 and 2^63; for any
    other value the statement fails with a datatype mismatch ([None]). *)
Definition bindLimit (n : JsString.number) : option Z :=
  match n with
  | JsString.Int z => if (- 2 ^ 63 <? z) && (z <? 2 ^ 63) then Some z else None
  | JsString.NonInteger => None
  end.

(** LIMIT n for an accepted integer n.  SQLite puts no upper bound on the
    number of rows when the LIMIT expression is negative. *)
Definition limit {A} (n : Z) (l : list A) : list A :=
  if n <? 0 then l else firstn (Z.to_nat n) l.

(** SQLite reads the operands of LIKE as C strings: up to the first NUL
    character. *)
Fixpoint cstring (s : string) : string :=
  match s with
  | EmptyString => EmptyString
  | String c s' => if (N_of_ascii c =? 0)%N then EmptyString else String c (cstring s')
  end.

(** The first byte of a multi-byte UTF-8 character, and the bytes that
    continue one. *)
Definition isLead (c : ascii) : bool := (192 <=? N_of_ascii c)%N.
Definition isContinuation (c : ascii) : bool :=
  ((128 <=? N_of_ascii c) && (N_of_ascii c <? 192))%N.

Fixpoint dropContinuation (s : string) : string :=
  match s with
  | EmptyString => EmptyString
  | String c s' => if isContinuation c then dropContinuation s' else s
  end.

(** The text after the character that starts with the byte [c]. *)
Definition skipChar (c : ascii) (s' : string) : string :=
  if isLead c then dropContinuation s' else s'.

(** The texts left after skipping zero or more whole characters of [s];
    [mid] tells that the bytes at hand continue a character. *)
Fixpoint charTails (mid : bool) (s : string) : list string :=
  match s with
  | EmptyString => [EmptyString]
  | String c s' =>
      if mid && isContinuation c then charTails true s'
      else s :: charTails (isLead c) s'
  end.

(** The pattern matching of LIKE (no ESCAPE clause): % matches any run of
    characters, _ any single character, and any other byte matches itself
    up to ASCII case. *)
Fixpoint likeC (pat : string) : string -> bool :=
  match pat with
  | EmptyString => fun s => match s with EmptyString => true | _ => false end
  | String p pat' =>
      if (p =? "%")%char then
        fun s => existsb (likeC pat') (charTails false s)
      else if (p =? "_")%char then
        fun s => match s with
                 | EmptyString => false
                 | String c s' => likeC pat' (skipChar c s')
                 end
      else
        fun s => match s with
                 | EmptyString => false
                 | String c s' =>
                     (JsString.lowerChar p =? JsString.lowerChar c)%char && likeC pat' s'
                 end
  end.

(** [like pat s] is the SQL expression [s LIKE pat], for a pattern that
    SQLite accepts. *)
Definition like (pat s : string) : bool := likeC (cstring pat) (cstring s).

(** SQLITE_MAX_LIKE_PATTERN_LENGTH.  A LIKE whose pattern has more bytes
    is not evaluated: the statement fails with the error that the
    pattern is too complex. *)
Definition MAX_LIKE_PATTERN_LENGTH : Z := 50000.

Definition patternTooComplex (pat : string) : bool :=
  MAX_LIKE_PATTERN_LENGTH <? Z.of_nat (String.length pat).

(** Descending order on TEXT under the BINARY collation. *)
Definition text_geb (a b : string) : bool := String.leb b a.

End Sql.

(* ================================================================== *)
(** ** database.ts *)

Module Database.

(** A value of a TIMESTAMP column filled by CURRENT_TIMESTAMP. *)
Definition timestamp := Z.

Record EmailCandidate : Type := mkEmailCandidate {
  id : Z;
  message_id : string;
  gmail_uid : string;
  subject : string;
  from_email : string;
  msg_date : string;
  preview_text : string;
  html_content : string;
  plain_text : string;
  confidence_score : Z;
  detection_reasons : string;
  fetched_at : timestamp;
  reviewed : Z
}.

(** Omit<EmailCandidate, 'id' | 'fetched_at' | 'reviewed'> *)
Record NewCandidate : Type := mkNewCandidate {
  n_message_id : string;
  n_gmail_uid : string;
  n_subject : string;
  n_from_email : string;
  n_msg_date : string;
  n_preview_text : string;
  n_html_content : string;
  n_plain_text : string;
  n_confidence_score : Z;
  n_detection_reasons : string
}.

Record ReviewDecisionRecord : Type := mkReviewDecisionRecord {
  d_id : Z;
  email_candidate_id : Z;
  d_message_id : string;
  is_flight_confirmation : Z;
  reviewed_at : timestamp;
  notes : option string
}.

Record ConfirmedFlight : Type := mkConfirmedFlight {
  f_id : Z;
  f_message_id : string;
  f_gmail_uid : string;
  f_subject : string;
  forwarded_to_tripit : Z;
  forwarded_at : option timestamp;
  parse_status : option string;
  tripit_trip_id : option string;
  created_at : timestamp
}.

(** The three tables and, for each, the largest rowid handed out so far
    (the sqlite_sequence entry kept for an AUTOINCREMENT key). *)
Record DB : Type := mkDB {
  email_candidates : list EmailCandidate;
  review_decisions : list ReviewDecisionRecord;
  confirmed_flights : list ConfirmedFlight;
  seq_candidates : Z;
  seq_decisions : Z;
  seq_confirmed : Z
}.

(** initDatabase on a fresh file. *)
Definition initDatabase : DB := mkDB [] [] [] 0 0 0.

Definition set_candidates (db : DB) (l : list EmailCandidate) : DB :=
  mkDB l (review_decisions db) (confirmed_flights db)
       (seq_candidates db) (seq_decisions db) (seq_confirmed db).

Definition set_decisions (db : DB) (l : list ReviewDecisionRecord) : DB :=
  mkDB (email_candidates db) l (confirmed_flights db)
       (seq_candidates db) (seq_decisions db) (seq_confirmed db).

Definition set_reviewed (v : Z) (c : EmailCandidate) : EmailCandidate :=
  mkEmailCandidate (id c) (message_id c) (gmail_uid c) (subject c) (from_email c)
    (msg_date c) (preview_text c) (html_content c) (plain_text c)
    (confidence_score c) (detection_reasons c) (fetched_at c) v.

Definition isUnreviewed (c : EmailCandidate) : bool := reviewed c =? 0.
Definition isReviewed (c : EmailCandidate) : bool := reviewed c =? 1.

(** ORDER BY confidence_score DESC, msg_date DESC *)
Definition byScoreThenDate (a b : EmailCandidate) : bool :=
  (confidence_score b <? confidence_score a) ||
  ((confidence_score a =? confidence_score b) && Sql.text_geb (msg_date a) (msg_date b)).

(** ORDER BY msg_date DESC *)
Definition byDate (a b : EmailCandidate) : bool :=
  Sql.text_geb (msg_date a) (msg_date b).

(** ORDER BY reviewed_at DESC *)
Definition byReviewedAt (a b : ReviewDecisionRecord) : bool :=
  reviewed_at b <=? reviewed_at a.

(** [None] when stmt.all(limit) throws. *)
Definition getUnreviewedCandidates (db : DB) (limit : JsString.number)
  : option (list EmailCandidate) :=
  match Sql.bindLimit limit with
  | Some n =>
      Some (Sql.limit n
              (Sql.orderBy byScoreThenDate (filter isUnreviewed (email_candidates db))))
  | None => None
  end.

Definition insertReviewDecision (db : DB) (now : timestamp)
    (emailCandidateId : Z) (messageId : string) (isFlightConfirmation : bool)
    (notes : option string) : DB :=
  let rowid := seq_decisions db + 1 in
  mkDB (email_candidates db)
       (review_decisions db ++
          [mkReviewDecisionRecord rowid emailCandidateId messageId
             (if isFlightConfirmation then 1 else 0) now notes])
       (confirmed_flights db)
       (seq_candidates db) rowid (seq_confirmed db).

Definition updateReviewed (v : Z) (candidateId : Z) (c : EmailCandidate)
  : EmailCandidate :=
  if id c =? candidateId then set_reviewed v c else c.

Definition markAsReviewed (db : DB) (candidateId : Z) : DB :=
  set_candidates db (map (updateReviewed 1 candidateId) (email_candidates db)).

Definition markAsUnreviewed (db : DB) (candidateId : Z) : DB :=
  set_candidates db (map (updateReviewed 0 candidateId) (email_candidates db)).

Definition count {A} (l : list A) : Z := Z.of_nat (List.length l).

Definition countUnreviewed (db : DB) : Z :=
  count (filter isUnreviewed (email_candidates db)).

Definition countReviewed (db : DB) : Z :=
  count (filter isReviewed (email_candidates db)).

Definition countTotalCandidates (db : DB) : Z :=
  count (email_candidates db).

Definition countConfirmedFlights (db : DB) : Z :=
  count (filter (fun d => is_flight_confirmation d =? 1) (review_decisions db)).

Definition countRejected (db : DB) : Z :=
  count (filter (fun d => is_flight_confirmation d =? 0) (review_decisions db)).

Definition getCandidateByMessageId (db : DB) (messageId : string)
  : option EmailCandidate :=
  find (fun c => (message_id c =? messageId)%string) (email_candidates db).

(** INSERT OR IGNORE under the UNIQUE constraint on message_id.  The
    AUTOINCREMENT key draws its rowid before the constraint is checked:
    an ignored insert stores no row and still uses the rowid up. *)
Definition insertConfirmedFlight (db : DB) (now : timestamp)
    (messageId gmailUid subject : string) : DB :=
  let rowid := seq_confirmed db + 1 in
  if existsb (fun f => (f_message_id f =? messageId)%string) (confirmed_flights db)
  then
    mkDB (email_candidates db) (review_decisions db) (confirmed_flights db)
         (seq_candidates db) (seq_decisions db) rowid
  else
    mkDB (email_candidates db) (review_decisions db)
         (confirmed_flights db ++
            [mkConfirmedFlight rowid messageId gmailUid subject 0 None None None now])
         (seq_candidates db) (seq_decisions db) rowid.

(** One run of the prepared INSERT OR IGNORE of insertCandidates, at the
    clock reading [now].  As for confirmed_flights, an ignored insert
    uses a rowid up. *)
Definition insertCandidate (now : timestamp) (db : DB) (c : NewCandidate) : DB :=
  let rowid := seq_candidates db + 1 in
  if existsb (fun r => (message_id r =? n_message_id c)%string) (email_candidates db)
  then
    mkDB (email_candidates db) (review_decisions db) (confirmed_flights db)
         rowid (seq_decisions db) (seq_confirmed db)
  else
    mkDB (email_candidates db ++
            [mkEmailCandidate rowid (n_message_id c) (n_gmail_uid c) (n_subject c)
               (n_from_email c) (n_msg_date c) (n_preview_text c) (n_html_content c)
               (n_plain_text c) (n_confidence_score c) (n_detection_reasons c) now 0])
         (review_decisions db) (confirmed_flights db)
         rowid (seq_decisions db) (seq_confirmed db).

(** The loop of the transaction: the statement runs for each candidate
    in turn, and the [i]-th run reads the clock for itself. *)
Fixpoint insertEach (clock : nat -> timestamp) (i : nat) (candidates : list NewCandidate)
    (db : DB) : DB :=
  match candidates with
  | [] => db
  | c :: rest => insertEach clock (S i) rest (insertCandidate (clock i) db c)
  end.

(** [clock i] is the clock reading of the [i]-th INSERT of the call; the
    method returns candidates.length. *)
Definition insertCandidates (db : DB) (clock : nat -> timestamp)
    (candidates : list NewCandidate) : Z * DB :=
  (count candidates, insertEach clock 0 candidates db).

(** ORDER BY reviewed_at DESC LIMIT 1 *)
Definition getLastDecision (db : DB) : option ReviewDecisionRecord :=
  hd_error (Sql.limit 1 (Sql.orderBy byReviewedAt (review_decisions db))).

Definition deleteDecision (db : DB) (decisionId : Z) : DB :=
  set_decisions db (filter (fun d => negb (d_id d =? decisionId)) (review_decisions db)).

Definition likeAny (query : string) (c : EmailCandidate) : bool :=
  let pat := "%" ++ query ++ "%" in
  Sql.like pat (subject c) || Sql.like pat (from_email c) || Sql.like pat (message_id c).

(** [None] when stmt.all(...params) throws: the LIKE terms are evaluated
    on the rows of the reviewed state asked for (the index on reviewed
    selects them), and evaluating one with a pattern that is too long
    fails the statement. *)
Definition searchCandidates (db : DB) (query : string) (reviewedFilter : option bool)
  : option (list EmailCandidate) :=
  let inState (c : EmailCandidate) : bool :=
    match reviewedFilter with
    | Some f => reviewed c =? (if f then 1 else 0)
    | None => true
    end in
  let matches (c : EmailCandidate) : bool := likeAny query c && inState c in
  if Sql.patternTooComplex ("%" ++ query ++ "%") && existsb inState (email_candidates db)
  then None
  else Some (Sql.limit 100 (Sql.orderBy byDate (filter matches (email_candidates db)))).

End Database.

(* ================================================================== *)
(** ** Statements that may throw *)

Module Storage.
Import Database.

(** One flag per statement a handler runs, in order: [true] makes the
    statement throw before it writes anything.  Past the end of the list
    every statement succeeds. *)
Definition faults := list bool.

Inductive outcome (A : Type) : Type :=
| Returned (a : A) (db : DB) (fs : faults)
| Thrown (db : DB).
Arguments Returned {A} a db fs.
Arguments Thrown {A} db.

Definition Stmt (A : Type) : Type := faults -> DB -> outcome A.

Definition ret {A} (a : A) : Stmt A := fun fs db => Returned a db fs.

Definition bind {A B} (m : Stmt A) (k : A -> Stmt B) : Stmt B :=
  fun fs db =>
    match m fs db with
    | Returned a db' fs' => k a fs' db'
    | Thrown db' => Thrown db'
    end.

(** A statement that reads and writes the database. *)
Definition run {A} (f : DB -> A * DB) : Stmt A :=
  fun fs db =>
    match fs with
    | true :: _ => Thrown db
    | false :: fs' => let (a, db') := f db in Returned a db' fs'
    | [] => let (a, db') := f db in Returned a db' []
    end.

(** A reading statement that SQLite may refuse by itself ([None]). *)
Definition attempt {A} (f : DB -> option A) : Stmt A :=
  fun fs db =>
    match fs with
    | true :: _ => Thrown db
    | false :: fs' =>
        match f db with Some a => Returned a db fs' | None => Thrown db end
    | [] =>
        match f db with Some a => Returned a db [] | None => Thrown db end
    end.

Definition query {A} (f : DB -> A) : Stmt A := run (fun db => (f db, db)).
Definition exec (f : DB -> DB) : Stmt unit := run (fun db => (tt, f db)).

Definition final {A} (o : outcome A) : DB :=
  match o with Returned _ db _ => db | Thrown db => db end.

End Storage.

Declare Scope stmt_scope.
Delimit Scope stmt_scope with stmt.
Notation "x <- m ;; k" := (Storage.bind m (fun x => k))
  (at level 61, m at next level, right associativity) : stmt_scope.
Notation "m ;;; k" := (Storage.bind m (fun _ => k))
  (at level 61, right associativity) : stmt_scope.

(* ================================================================== *)
(** ** routes.ts *)

Module Routes.
Import Database Storage.

(** The body of POST /api/emails/review.  [email_id] is [None] when the
    field is missing; [is_flight_confirmation] is [None] when the field is
    missing or is not a boolean. *)
Record ReviewDecision : Type := mkReviewDecision {
  email_id : option string;
  is_flight_confirmation : option bool;
  notes : option string
}.

Inductive response : Type :=
| ReviewSuccess (remaining : Z)             (* 200 { status: 'success', remaining } *)
| UndoSuccess (undone_email_id : string)    (* 200 { status: 'success', undone_email_id } *)
| SearchResults (results : list EmailCandidate) (n : Z)  (* 200 { results, count } *)
| InvalidInput                              (* 400 *)
| NotFound                                  (* 404 *)
| StorageFailure.                           (* 500 *)

(** try { ... } catch (error) { res.status(500) } *)
Definition handle (m : Stmt response) (fs : faults) (db : DB) : response * DB :=
  match m fs db with
  | Returned r db' _ => (r, db')
  | Thrown db' => (StorageFailure, db')
  end.

Definition reviewBody (now : timestamp) (decision : ReviewDecision) : Stmt response :=
  match email_id decision, is_flight_confirmation decision with
  | Some eid, Some verdict =>
      if (eid =? "")%string then ret InvalidInput
      else
        (candidate <- query (fun db => getCandidateByMessageId db eid) ;;
         match candidate with
         | None => ret NotFound
         | Some candidate =>
             exec (fun db => insertReviewDecision db now (id candidate) eid verdict
                               (notes decision)) ;;;
             exec (fun db => markAsReviewed db (id candidate)) ;;;
             (if verdict
              then exec (fun db => insertConfirmedFlight db now eid
                                     (gmail_uid candidate) (subject candidate))
              else ret tt) ;;;
             remaining <- query countUnreviewed ;;
             ret (ReviewSuccess remaining)
         end)%stmt
  | _, _ => ret InvalidInput
  end.

(** POST /api/emails/review *)
Definition postReview (now : timestamp) (fs : faults) (decision : ReviewDecision)
    (db : DB) : response * DB :=
  handle (reviewBody now decision) fs db.

Definition undoBody : Stmt response :=
  (lastDecision <- query getLastDecision ;;
   match lastDecision with
   | None => ret NotFound
   | Some lastDecision =>
       exec (fun db => deleteDecision db (d_id lastDecision)) ;;;
       exec (fun db => markAsUnreviewed db (email_candidate_id lastDecision)) ;;;
       ret (UndoSuccess (d_message_id lastDecision))
   end)%stmt.

(** POST /api/emails/undo *)
Definition postUndo (fs : faults) (db : DB) : response * DB :=
  handle undoBody fs db.

(** GET /api/emails/search; [q] and [reviewed] are the query parameters. *)
Definition getSearch (fs : faults) (q : option string) (reviewed : option string)
    (db : DB) : response * DB :=
  match q with
  | None => (InvalidInput, db)
  | Some query =>
      if (query =? "")%string then (InvalidInput, db)
      else
        let reviewedFilter :=
          match reviewed with
          | Some r => if (r =? "true")%string then Some true
                      else if (r =? "false")%string then Some false
                      else None
          | None => None
          end in
        handle (results <- attempt
                             (fun db => searchCandidates db query reviewedFilter) ;;
                ret (SearchResults results (count results)))%stmt fs db
  end.

(** What the review service can be asked to do to the store. *)
Inductive request : Type :=
| Ingest (clock : nat -> timestamp) (candidates : list NewCandidate)
| Review (now : timestamp) (fs : faults) (decision : ReviewDecision)
| Undo (fs : faults).

Definition step (r : request) (db : DB) : DB :=
  match r with
  | Ingest clock candidates => snd (insertCandidates db clock candidates)
  | Review now fs decision => snd (postReview now fs decision db)
  | Undo fs => snd (postUndo fs db)
  end.

(** The states the store goes through, starting from an empty database. *)
Inductive reachable : DB -> Prop :=
| reach_init : reachable initDatabase
| reach_step : forall db r, reachable db -> reachable (step r db).

Definition run_requests (rs : list request) (db : DB) : DB :=
  fold_left (fun db r => step r db) rs db.

End Routes.


(* ================================================================== *)
(** ** routes.ts: GET /api/emails/next-batch *)

Module NextBatch.
Import Database Storage.

(** A computation of the handler itself that may throw; it runs no
    statement. *)
Definition throwing {A} (o : option A) : Stmt A :=
  fun fs db =>
    match o with
    | Some a => Returned a db fs
    | None => Thrown db
    end.

(** [traverse f l] is [l.map(f)] for an [f] that may throw: the first
    failure aborts the map. *)
Fixpoint traverse {A B} (f : A -> option B) (l : list A) : option (list B) :=
  match l with
  | [] => Some []
  | x :: l' =>
      match f x with
      | None => None
      | Some y =>
          match traverse f l' with
          | None => None
          | Some ys => Some (y :: ys)
          end
      end
  end.

(** Math.min(parseInt(req.query.batch_size) || 20, 100).  [parsed] is the
    value of parseInt: [None] for NaN, else the integer read (an infinity,
    which parseInt gives for a very long run of digits, behaves here as any
    integer beyond the 64-bit range does). *)
Definition batchSize (parsed : option Z) : Z :=
  Z.min (match parsed with
         | Some n => if n =? 0 then 20 else n
         | None => 20
         end) 100.

Section WithJson.
(** The values of JSON.parse; [JSON_parse] is [None] where JSON.parse
    throws a SyntaxError. *)
Variable json : Type.
Variable JSON_parse : string -> option json.

Record EmailCard : Type := mkEmailCard {
  card_id : string;
  card_subject : string;
  card_from_email : string;
  card_date : string;
  card_preview_text : string;
  card_html_content : string;
  card_confidence_score : Z;
  highlights : json
}.

Inductive batchResponse : Type :=
| Batch (emails : list EmailCard) (total_remaining : Z)  (* 200 { emails, total_remaining } *)
| NoMoreEmails                                           (* 200 { emails: [], message } *)
| BatchFailure.                                          (* 500 *)

Definition toCard (c : EmailCandidate) : option EmailCard :=
  match JSON_parse (detection_reasons c) with
  | Some h =>
      Some (mkEmailCard (message_id c) (subject c) (from_email c) (msg_date c)
              (preview_text c) (html_content c) (confidence_score c) h)
  | None => None
  end.

Definition nextBatchBody (parsed : option Z) : Stmt batchResponse :=
  (candidates <- attempt (fun db => getUnreviewedCandidates db
                                       (JsString.Int (batchSize parsed))) ;;
   match candidates with
   | [] => ret NoMoreEmails
   | _ :: _ =>
       emails <- throwing (traverse toCard candidates) ;;
       totalRemaining <- query countUnreviewed ;;
       ret (Batch emails totalRemaining)
   end)%stmt.

(** GET /api/emails/next-batch *)
Definition getNextBatch (fs : faults) (parsed : option Z) (db : DB)
  : batchResponse * DB :=
  match nextBatchBody parsed fs db with
  | Returned r db' _ => (r, db')
  | Thrown db' => (BatchFailure, db')
  end.

End WithJson.

End NextBatch.

(* ================================================================== *)
(** * Vocabulary of the properties *)

Module Spec.
Import JsString Database Storage Routes.

(** Two strings that differ at most in the case of their ASCII letters
    A-Z and a-z. *)
Definition sameUpToCase (a b : string) : Prop := asciiLowerCase a = asciiLowerCase b.

Definition sameUpToCaseOpt (a b : option string) : Prop :=
  match a, b with
  | Some a, Some b => sameUpToCase a b
  | None, None => True
  | _, _ => False
  end.

(** Two emails that differ at most in the case of the ASCII letters of
    the four texts the scorer reads. *)
Definition caseVariant (e e' : Classifier.EmailData) : Prop :=
  sameUpToCase (Classifier.subject e) (Classifier.subject e') /\
  sameUpToCase (Classifier.from_email e) (Classifier.from_email e') /\
  sameUpToCase (Classifier.html e) (Classifier.html e') /\
  sameUpToCaseOpt (Classifier.plain_text e) (Classifier.plain_text e').

(** [s] contains [q] as a literal substring, up to ASCII case. *)
Definition containsNoCase (s q : string) : bool :=
  includes (asciiLowerCase s) (asciiLowerCase q).

(** Two facts about String.prototype.toLowerCase that the properties
    rely on.  Its result does not depend on the case of the ASCII letters
    of its argument. *)
Definition caseBlind (toLowerCase : string -> string) : Prop :=
  forall s s', asciiLowerCase s = asciiLowerCase s' -> toLowerCase s = toLowerCase s'.

Fixpoint isAsciiText (s : string) : bool :=
  match s with
  | EmptyString => true
  | String c s' => (N_of_ascii c <? 128)%N && isAsciiText s'
  end.

(** And a run of ASCII characters comes out at its place with its letters
    lowered, whatever surrounds it. *)
Definition lowersInPlace (toLowerCase : string -> string) : Prop :=
  forall pre s post, isAsciiText s = true ->
    exists pre' post',
      toLowerCase (pre ++ s ++ post) = (pre' ++ asciiLowerCase s ++ post')%string.


(** The query has no NUL character. *)
Fixpoint noNul (q : string) : bool :=
  match q with
  | EmptyString => true
  | String c q' => negb (N_of_ascii c =? 0)%N && noNul q'
  end.

(** The query does not begin in the middle of a UTF-8 character; no
    encoded text does. *)
Definition startsChar (q : string) : bool :=
  match q with
  | EmptyString => true
  | String c _ => negb (Sql.isContinuation c)
  end.


(** A query that still fits the pattern of LIKE between the two % put
    around it: one of at most 49998 bytes. *)
Definition shortQuery (q : string) : bool :=
  Z.of_nat (String.length q) + 2 <=? Sql.MAX_LIKE_PATTERN_LENGTH.

(** The search predicate in the words of the specification, each column
    being read up to its first NUL character. *)
Definition matchesLiterally (query : string) (reviewedFilter : option bool)
    (c : EmailCandidate) : bool :=
  (containsNoCase (Sql.cstring (subject c)) query
   || containsNoCase (Sql.cstring (from_email c)) query
   || containsNoCase (Sql.cstring (message_id c)) query) &&
  match reviewedFilter with
  | Some f => reviewed c =? (if f then 1 else 0)
  | None => true
  end.

(** Score descending, then message date descending. *)
Definition scoreDateOrder (a b : EmailCandidate) : Prop :=
  confidence_score b < confidence_score a \/
  (confidence_score a = confidence_score b /\ String.leb (msg_date b) (msg_date a) = true).


(** What the schema and the statements of the three handlers maintain. *)
Record wf (db : DB) : Prop := mk_wf {
  wf_message_ids : NoDup (map message_id (email_candidates db));
  wf_ids : NoDup (map id (email_candidates db));
  wf_ids_seq : Forall (fun c => id c <= seq_candidates db) (email_candidates db);
  wf_reviewed : Forall (fun c => reviewed c = 0 \/ reviewed c = 1) (email_candidates db);
  wf_decision_ids : NoDup (map d_id (review_decisions db));
  wf_decision_seq : Forall (fun d => d_id d <= seq_decisions db) (review_decisions db)
}.

(** Only a candidate with a non-empty message identifier gets reviewed:
    the review handler answers 400 to an empty identifier. *)
Definition reviewed_have_id (db : DB) : Prop :=
  Forall (fun c => reviewed c = 1 -> message_id c <> "") (email_candidates db).

(** A statement keeps [P], whether it returns or throws. *)
Definition preserves (P : DB -> Prop) {A} (m : Stmt A) : Prop :=
  forall fs db, P db -> P (final (m fs db)).




Definition isPresent (db : DB) (c : NewCandidate) : bool :=
  existsb (fun r => (message_id r =? n_message_id c)%string) (email_candidates db).

Definition submit (messageId : string) (verdict : bool) (note : option string)
  : ReviewDecision :=
  mkReviewDecision (Some messageId) (Some verdict) note.

(** The state after the statements of a successful review. *)
Definition reviewed_state (db : DB) (now : timestamp) (m : string) (verdict : bool)
    (note : option string) (c : EmailCandidate) : DB :=
  let db1 := insertReviewDecision db now (id c) m verdict note in
  let db2 := markAsReviewed db1 (id c) in
  if verdict then insertConfirmedFlight db2 now m (gmail_uid c) (subject c) else db2.

(** The row a review appends to the decision log. *)
Definition decision_row (db : DB) (now : timestamp) (m : string) (verdict : bool)
    (note : option string) (c : EmailCandidate) : ReviewDecisionRecord :=
  mkReviewDecisionRecord (seq_decisions db + 1) (id c) m (if verdict then 1 else 0)
                         now note.

(** One candidate, reviewed twice: accepted at 150, rejected at 160. *)
Definition reviewedTwice (c : NewCandidate) : DB :=
  run_requests [Ingest (fun _ => 100) [c];
                Review 150 [] (submit (n_message_id c) true None);
                Review 160 [] (submit (n_message_id c) false None)] initDatabase.

End Spec.

Module Samples.
Import Database Storage Routes Spec.

Definition schemaUpper : Classifier.EmailData :=
  Classifier.mkEmailData "{@type:FlightReservation}" "noreply@example.com" "Hello"
    (Some "Details") "msg1" "2024-01-01".
Definition schemaLower : Classifier.EmailData :=
  Classifier.mkEmailData "{@type:flightreservation}" "noreply@example.com" "Hello"
    (Some "Details") "msg1" "2024-01-01".

Definition markersUpper : Classifier.EmailData :=
  Classifier.mkEmailData "" "noreply@example.com" "Hello"
    (Some "Code ABC123. Number AA1234 from JFK to LAX.") "msg2" "2024-01-01".
Definition markersLower : Classifier.EmailData :=
  Classifier.mkEmailData "" "noreply@example.com" "Hello"
    (Some "code abc123. number aa1234 from jfk to lax.") "msg2" "2024-01-01".

(** The letter U+0131 (dotless i) in UTF-8.  Its upper case is I, so
    the subject of [dotlessUpper] is the upper-casing of the subject of
    [dotlessLower]; toLowerCase leaves the latter as it is. *)
Definition dotlessI : string :=
  String (ascii_of_N 196) (String (ascii_of_N 177) EmptyString).
Definition dotlessUpper : Classifier.EmailData :=
  Classifier.mkEmailData "" "noreply@example.com" "FLIGHT"
    (Some "Details") "msg5" "2024-01-01".
Definition dotlessLower : Classifier.EmailData :=
  Classifier.mkEmailData "" "noreply@example.com" ("fl" ++ dotlessI ++ "ght")
    (Some "Details") "msg5" "2024-01-01".


Definition shouting : Classifier.EmailData :=
  Classifier.mkEmailData "<html>Details</html>" "noreply@UNITED.COM" "FLIGHT CONFIRMATION"
    (Some "Details") "msg1" "2024-01-01".
Definition whispering : Classifier.EmailData :=
  Classifier.mkEmailData "<html>Details</html>" "noreply@united.com" "flight confirmation"
    (Some "Details") "msg1" "2024-01-01".

Definition thirty : Classifier.EmailData :=
  Classifier.mkEmailData "<html>Details</html>" "noreply@united.com" "Your flight"
    (Some "Details") "msg3" "2024-01-01".
Definition twentyFive : Classifier.EmailData :=
  Classifier.mkEmailData "<html>Details</html>" "noreply@example.com" "Flight Confirmation"
    (Some "Details") "msg4" "2024-01-01".

(** The two candidates of the test suites. *)
Definition msg1 : NewCandidate :=
  mkNewCandidate "msg1" "uid1" "United Flight Confirmation" "noreply@united.com"
    "2024-01-01" "Your flight is confirmed" "<html>Flight details</html>"
    "Flight details" 85 "[Known airline sender]".

Definition msg2 : NewCandidate :=
  mkNewCandidate "msg2" "uid2" "Delta Flight Itinerary" "noreply@delta.com"
    "2024-01-02" "Your itinerary" "<html>Itinerary</html>"
    "Itinerary" 90 "[Known airline sender]".

(** The same identifier as [msg1] with another content. *)
Definition msg1' : NewCandidate :=
  mkNewCandidate "msg1" "uid9" "Changed subject" "other@example.com"
    "2025-05-05" "Other" "<html>Other</html>" "Other" 40 "[]".

(** One candidate, nothing reviewed. *)
Definition oneCandidate : DB := run_requests [Ingest (fun _ => 100) [msg1]] initDatabase.

(** Two candidates, nothing reviewed. *)
Definition twoCandidates : DB := run_requests [Ingest (fun _ => 100) [msg1; msg2]] initDatabase.

(** One candidate, rejected at time 150. *)
Definition oneRejected : DB :=
  run_requests [Ingest (fun _ => 100) [msg1]; Review 150 [] (submit "msg1" false None)] initDatabase.

(** Two candidates, reviewed at times 150 and 160. *)
Definition twoReviewed : DB :=
  run_requests [Ingest (fun _ => 100) [msg1; msg2];
                Review 150 [] (submit "msg1" true None);
                Review 160 [] (submit "msg2" false None)] initDatabase.

End Samples.

(* ================================================================== *)
(** * Vocabulary of the further properties *)

Module Spec2.
Import JsString Database Storage Routes Spec.

(** The five conditions of calculateConfidenceScore. *)
Definition ruleSchema (e : Classifier.EmailData) : bool :=
  Classifier.hasFlightReservationSchema (Classifier.html e).
Definition ruleSender (toLowerCase : string -> string) (e : Classifier.EmailData) : bool :=
  Classifier.isKnownSender toLowerCase (Classifier.from_email e).
Definition ruleConfirmation (toLowerCase : string -> string) (e : Classifier.EmailData)
  : bool :=
  Classifier.hasConfirmationKeywords toLowerCase (Classifier.subject e).
Definition ruleFlight (toLowerCase : string -> string) (e : Classifier.EmailData) : bool :=
  Classifier.hasFlightKeywords toLowerCase (Classifier.subject e).
Definition ruleMarkers (e : Classifier.EmailData) : bool :=
  2 <=? Z.of_nat (List.length
                    (Classifier.detectFlightMarkers
                       (match Classifier.plain_text e with Some t => t | None => "" end))).

Definition fired (b : bool) : nat := if b then 1%nat else 0%nat.

(** No character of [s] is an upper-case ASCII letter. *)
Fixpoint noUpper (s : string) : bool :=
  match s with
  | EmptyString => true
  | String c s' => negb (isUpper c) && noUpper s'
  end.

Definition knownDomains : list string :=
  (Classifier.KNOWN_AIRLINE_SENDERS ++ Classifier.KNOWN_OTA_SENDERS)%list.

(** The columns of a candidate other than the reviewed flag. *)
Definition content (c : EmailCandidate) : EmailCandidate := set_reviewed 0 c.

(** The single writes the requests are made of. *)
Inductive write : DB -> DB -> Prop :=
| w_candidate now db c :
    write db (insertCandidate now db c)
| w_decision db now m verdict note c :
    m <> "" -> getCandidateByMessageId db m = Some c ->
    write db (insertReviewDecision db now (id c) m verdict note)
| w_reviewed db m c :
    m <> "" -> getCandidateByMessageId db m = Some c ->
    write db (markAsReviewed db (id c))
| w_confirmed db now m c :
    m <> "" -> getCandidateByMessageId db m = Some c ->
    write db (insertConfirmedFlight db now m (gmail_uid c) (subject c))
| w_delete db d :
    In d (review_decisions db) ->
    write db (deleteDecision db (d_id d))
| w_unreviewed db cid :
    write db (markAsUnreviewed db cid).

Inductive writes : DB -> DB -> Prop :=
| writes_refl db : writes db db
| writes_step db db1 db2 : writes db db1 -> write db1 db2 -> writes db db2.

(** A decision row has a verdict of 0 or 1 and names a stored candidate
    by its rowid and by its non-empty message identifier. *)
Definition decision_ok (db : DB) (d : ReviewDecisionRecord) : Prop :=
  (Database.is_flight_confirmation d = 0 \/ Database.is_flight_confirmation d = 1) /\
  d_message_id d <> "" /\
  exists c, In c (email_candidates db) /\
            id c = email_candidate_id d /\ message_id c = d_message_id d.

(** A confirmed flight copies the identifier, uid and subject of a stored
    candidate and has not been forwarded. *)
Definition confirmed_ok (db : DB) (f : ConfirmedFlight) : Prop :=
  forwarded_to_tripit f = 0 /\ forwarded_at f = None /\
  parse_status f = None /\ tripit_trip_id f = None /\
  exists c, In c (email_candidates db) /\
            message_id c = f_message_id f /\ gmail_uid c = f_gmail_uid f /\
            subject c = f_subject f.

Record linked (db : DB) : Prop := mk_linked {
  linked_decisions : Forall (decision_ok db) (review_decisions db);
  linked_confirmed : Forall (confirmed_ok db) (confirmed_flights db);
  linked_confirmed_ids : NoDup (map f_message_id (confirmed_flights db))
}.

End Spec2.

Module Samples2.
Import Database Storage Routes Spec.

(** JSON.parse on the two texts of the examples: [] is the empty array
    and the empty text is rejected.  The examples use it on no other
    text. *)
Definition parseReasons (s : string) : option (list string) :=
  if (s =? "[]")%string then Some [] else None.

(** Two candidates whose detection_reasons column is the JSON text []. *)
Definition card1 : NewCandidate :=
  mkNewCandidate "card1" "uid1" "Itinerary" "noreply@delta.com"
    "2024-01-01" "Itinerary" "<html>Itinerary</html>" "Itinerary" 35 "[]".

Definition card2 : NewCandidate :=
  mkNewCandidate "card2" "uid2" "Boarding pass" "noreply@jetblue.com"
    "2024-01-02" "Boarding" "<html>Boarding</html>" "Boarding" 30 "[]".

(** A candidate whose detection_reasons column is empty. *)
Definition card3 : NewCandidate :=
  mkNewCandidate "card3" "uid3" "Receipt" "noreply@aa.com"
    "2024-01-03" "Receipt" "<html>Receipt</html>" "Receipt" 95 "".


Definition threeCards : DB :=
  run_requests [Ingest (fun _ => 100) [card1; card2; card3]] initDatabase.

End Samples2.

(* ================================================================== *)
(** * Facts about ORDER BY, LIMIT and LIKE *)

Section OrderByFacts.
Context {A : Type}.
Variable before : A -> A -> bool.

Lemma insertRow_perm x l : Permutation (x :: l) (Sql.insertRow before x l).
Proof.
  induction l as [|y l IH]; simpl.
  - apply Permutation_refl.
  - destruct (before x y).
    + apply Permutation_refl.
    + eapply perm_trans; [apply perm_swap|]. apply perm_skip, IH.
Qed.

Lemma orderBy_perm l : Permutation l (Sql.orderBy before l).
Proof.
  induction l as [|x l IH]; simpl.
  - apply perm_nil.
  - eapply perm_trans; [apply perm_skip, IH|]. apply insertRow_perm.
Qed.

Lemma orderBy_length l : List.length (Sql.orderBy before l) = List.length l.
Proof. symmetry. apply Permutation_length, orderBy_perm. Qed.

Lemma orderBy_In x l : In x (Sql.orderBy before l) <-> In x l.
Proof.
  split; intros H.
  - eapply Permutation_in; [apply Permutation_sym, orderBy_perm|exact H].
  - eapply Permutation_in; [apply orderBy_perm|exact H].
Qed.

(** A row placed last that the ordering puts strictly ahead of every
    other row comes out first. *)
Lemma orderBy_snoc_first l x :
  Forall (fun y => before y x = false) l ->
  Sql.orderBy before (l ++ [x]) = x :: Sql.orderBy before l.
Proof.
  induction 1 as [|y l Hy Hl IH]; simpl.
  - reflexivity.
  - rewrite IH. simpl. rewrite Hy. reflexivity.
Qed.

Section Sortedness.
Variable R : A -> A -> Prop.
Hypothesis before_R : forall a b, before a b = true -> R a b.
Hypothesis before_total : forall a b, before a b = false -> R b a.
Hypothesis R_trans : forall a b c, R a b -> R b c -> R a c.

Lemma insertRow_sorted x l :
  StronglySorted R l -> StronglySorted R (Sql.insertRow before x l).
Proof.
  induction 1 as [|y l Hl IH Hy]; simpl.
  - constructor; constructor.
  - destruct (before x y) eqn:E.
    + constructor.
      * constructor; assumption.
      * constructor; [now apply before_R|].
        eapply Forall_impl; [|exact Hy]. intros z Hz.
        eapply R_trans; [apply before_R, E|exact Hz].
    + constructor; [exact IH|].
      rewrite Forall_forall. intros z Hz.
      apply (Permutation_in _ (Permutation_sym (insertRow_perm x l))) in Hz.
      destruct Hz as [<-|Hz].
      * now apply before_total.
      * rewrite Forall_forall in Hy. now apply Hy.
Qed.

Lemma orderBy_sorted l : StronglySorted R (Sql.orderBy before l).
Proof.
  induction l as [|x l IH]; simpl.
  - constructor.
  - apply insertRow_sorted, IH.
Qed.
End Sortedness.
End OrderByFacts.

Lemma StronglySorted_firstn {A} (R : A -> A -> Prop) n l :
  StronglySorted R l -> StronglySorted R (firstn n l).
Proof.
  intros H. revert n. induction H as [|x l Hl IH Hx]; intros [|n]; simpl;
    try constructor.
  - apply IH.
  - rewrite Forall_forall in *. intros y Hy. apply Hx.
    revert Hy. clear. revert n. induction l as [|z l IHl]; intros [|n]; simpl; try tauto.
    intros [->|H]; [now left|right; eauto].
Qed.

Lemma limit_sorted {A} (R : A -> A -> Prop) n l :
  StronglySorted R l -> StronglySorted R (Sql.limit n l).
Proof.
  intros H. unfold Sql.limit. destruct (n <? 0); [exact H|].
  now apply StronglySorted_firstn.
Qed.

Lemma limit_In {A} n (l : list A) x : In x (Sql.limit n l) -> In x l.
Proof.
  unfold Sql.limit. destruct (n <? 0); [tauto|].
  revert l. generalize (Z.to_nat n) as k. induction k as [|k IH]; intros [|y l]; simpl; try tauto.
  intros [->|H]; [now left|right; eauto].
Qed.

Lemma limit_length {A} n (l : list A) :
  0 <= n -> Z.of_nat (List.length (Sql.limit n l)) <= n.
Proof.
  intros Hn. unfold Sql.limit. destruct (n <? 0) eqn:E; [lia|].
  rewrite length_firstn. lia.
Qed.

Lemma limit_all {A} n (l : list A) :
  Z.of_nat (List.length l) <= n -> Sql.limit n l = l.
Proof.
  intros Hn. unfold Sql.limit. destruct (n <? 0) eqn:E; [reflexivity|].
  apply firstn_all2. lia.
Qed.

Lemma limit_negative {A} n (l : list A) : n < 0 -> Sql.limit n l = l.
Proof.
  intros Hn. unfold Sql.limit. destruct (n <? 0) eqn:E; [reflexivity|lia].
Qed.

(* ================================================================== *)
(** * Properties of the classifier *)

Section ClassifierFacts.
Import JsString Classifier Spec Samples.

Lemma asciiLowerCase_caseBlind : caseBlind asciiLowerCase.
Proof. intros s s' H. exact H. Qed.

Example markers_found :
  detectFlightMarkers "Your confirmation code is ABC123. Flight AA1234 from JFK to LAX."
  = ["confirmation code"; "flight number"; "airport code"].
Proof. vm_compute. reflexivity. Qed.

Example strong_candidate :
  calculateConfidenceScore asciiLowerCase
    (mkEmailData "<html>Flight details</html>" "noreply@aa.com"
       "Flight Confirmation - AA1234"
       (Some "Confirmation ABC123. Flight AA1234 from JFK to LAX.") "msg1" "2024-01-01")
  = mkConfidenceResult 55
      ["Known airline/OTA sender"; "Confirmation keyword in subject";
       "Flight keyword in subject";
       "Flight markers: confirmation code, flight number, airport code"].
Proof. vm_compute. reflexivity. Qed.

Example no_signal :
  calculateConfidenceScore asciiLowerCase
    (mkEmailData "" "" "" (Some "") "msg1" "2024-01-01") = mkConfidenceResult 0 [].
Proof. vm_compute. reflexivity. Qed.

Section AnyLowerCase.
Variable toLowerCase : string -> string.
Hypothesis blind : caseBlind toLowerCase.

Lemma isKnownSender_case a b :
  sameUpToCase a b -> isKnownSender toLowerCase a = isKnownSender toLowerCase b.
Proof. intros H. unfold isKnownSender. now rewrite (blind a b H). Qed.

Lemma hasConfirmationKeywords_case a b :
  sameUpToCase a b ->
  hasConfirmationKeywords toLowerCase a = hasConfirmationKeywords toLowerCase b.
Proof. intros H. unfold hasConfirmationKeywords. now rewrite (blind a b H). Qed.

Lemma hasFlightKeywords_case a b :
  sameUpToCase a b -> hasFlightKeywords toLowerCase a = hasFlightKeywords toLowerCase b.
Proof. intros H. unfold hasFlightKeywords. now rewrite (blind a b H). Qed.

End AnyLowerCase.

(** C3, as stated, fails: lowering the case of the HTML body removes the
    FlightReservation schema rule (50 becomes 0), and lowering the case of
    the plain-text body removes the flight markers (10 becomes 0).  Nor is
    the subject matched up to the case of every letter: FLIGHT fires the
    flight-keyword rule, and the same word with a dotless i for its I,
    which toLowerCase leaves as it is, does not.  On the six emails
    toLowerCase lowers A-Z and changes nothing else. *)
Lemma case_insensitive_counterexample :
  (caseVariant schemaUpper schemaLower /\
   calculateConfidenceScore asciiLowerCase schemaUpper
     = mkConfidenceResult 50 ["Has FlightReservation schema markup"] /\
   calculateConfidenceScore asciiLowerCase schemaLower = mkConfidenceResult 0 []) /\
  (caseVariant markersUpper markersLower /\
   calculateConfidenceScore asciiLowerCase markersUpper
     = mkConfidenceResult 10
         ["Flight markers: confirmation code, flight number, airport code"] /\
   calculateConfidenceScore asciiLowerCase markersLower = mkConfidenceResult 0 []) /\
  (subject dotlessUpper = "FLIGHT" /\
   subject dotlessLower = ("fl" ++ dotlessI ++ "ght")%string /\
   from_email dotlessUpper = from_email dotlessLower /\
   html dotlessUpper = html dotlessLower /\
   plain_text dotlessUpper = plain_text dotlessLower /\
   calculateConfidenceScore asciiLowerCase dotlessUpper
     = mkConfidenceResult 10 ["Flight keyword in subject"] /\
   calculateConfidenceScore asciiLowerCase dotlessLower = mkConfidenceResult 0 []).
Proof. repeat split; vm_compute; reflexivity. Qed.

(** C3, amended: the score and the reasons do not change when the case
    of ASCII letters of the subject or of the sender address is altered
    and the HTML and plain-text bodies are kept; the FlightReservation
    schema rule and the flight-marker patterns are case-sensitive.  The
    built-in toLowerCase enters only through its blindness to the case of
    ASCII letters. *)
Theorem score_case_insensitive_subject_sender toLowerCase (e e' : EmailData) :
  caseBlind toLowerCase ->
  sameUpToCase (subject e) (subject e') ->
  sameUpToCase (from_email e) (from_email e') ->
  html e = html e' ->
  plain_text e = plain_text e' ->
  calculateConfidenceScore toLowerCase e = calculateConfidenceScore toLowerCase e' /\
  (exists h h', sameUpToCase h h' /\
     hasFlightReservationSchema h = true /\ hasFlightReservationSchema h' = false) /\
  (exists t t', sameUpToCase t t' /\
     List.length (detectFlightMarkers t) = 3%nat /\ detectFlightMarkers t' = []).
Proof.
  intros Hb Hs Hf Hh Hp. split; [|split].
  - unfold calculateConfidenceScore.
    rewrite (isKnownSender_case _ Hb _ _ Hf), (hasConfirmationKeywords_case _ Hb _ _ Hs),
      (hasFlightKeywords_case _ Hb _ _ Hs), Hh, Hp.
    reflexivity.
  - exists "FlightReservation", "flightreservation". repeat split.
  - exists "ABC123 AA12 JFK", "abc123 aa12 jfk". repeat split.
Qed.

Lemma score_case_insensitive_subject_sender_witness :
  calculateConfidenceScore asciiLowerCase shouting
  = calculateConfidenceScore asciiLowerCase whispering.
Proof.
  apply (score_case_insensitive_subject_sender asciiLowerCase shouting whispering);
    [exact asciiLowerCase_caseBlind|reflexivity..].
Defined.

(** The scores on either side of the threshold that emails do reach. *)
Example score_thirty :
  calculateConfidenceScore asciiLowerCase thirty
  = mkConfidenceResult 30 ["Known airline/OTA sender"; "Flight keyword in subject"].
Proof. vm_compute. reflexivity. Qed.

Example score_twentyFive :
  isCandidateForReview asciiLowerCase twentyFive
  = mkCandidateVerdict false 25
      ["Confirmation keyword in subject"; "Flight keyword in subject"].
Proof. vm_compute. reflexivity. Qed.

(** Every score is a sum of the five weights: a multiple of 5 between 0
    and 105. *)
Lemma score_values toLowerCase (e : EmailData) :
  exists k, score (calculateConfidenceScore toLowerCase e) = 5 * k /\ 0 <= k <= 21.
Proof.
  unfold calculateConfidenceScore, rule.
  destruct (hasFlightReservationSchema _), (isKnownSender _ _),
    (hasConfirmationKeywords _ _), (hasFlightKeywords _ _), (2 <=? _);
    cbn [score];
    match goal with |- exists k, ?s = _ /\ _ => exists (s / 5) end;
    (split; [reflexivity|split; vm_compute; discriminate]).
Qed.

(** C6: isCandidateForReview reports the score and reasons of
    calculateConfidenceScore and isCandidate = (score >= 30), with the
    fixed threshold 30: a score of 29 is rejected, a score of 30 is
    accepted. *)
Theorem threshold_boundary toLowerCase (e : EmailData) :
  let r := calculateConfidenceScore toLowerCase e in
  let v := isCandidateForReview toLowerCase e in
  CONFIDENCE_THRESHOLD = 30 /\
  verdict_score v = score r /\
  verdict_reasons v = reasons r /\
  isCandidate v = (30 <=? score r) /\
  (score r = 29 -> isCandidate v = false) /\
  (score r = 30 -> isCandidate v = true).
Proof.
  cbn zeta. unfold isCandidateForReview, CONFIDENCE_THRESHOLD.
  cbn [isCandidate verdict_score verdict_reasons].
  repeat split.
  - intros ->. reflexivity.
  - intros ->. reflexivity.
Qed.

Lemma threshold_boundary_witness :
  score (calculateConfidenceScore asciiLowerCase thirty) = 30 /\
  isCandidate (isCandidateForReview asciiLowerCase thirty) = true.
Proof.
  split.
  - reflexivity.
  - apply (threshold_boundary asciiLowerCase thirty). reflexivity.
Defined.

End ClassifierFacts.

(* ================================================================== *)
(** * Facts about TEXT comparison and LIKE *)

Lemma string_leb_trans a b c :
  String.leb a b = true -> String.leb b c = true -> String.leb a c = true.
Proof.
  unfold String.leb. revert b c.
  induction a as [|x a IH]; intros [|y b] [|z c]; simpl; try congruence.
  unfold Ascii.compare.
  destruct (N.compare_spec (N_of_ascii x) (N_of_ascii y)) as [Exy|Lxy|Gxy];
    destruct (N.compare_spec (N_of_ascii y) (N_of_ascii z)) as [Eyz|Lyz|Gyz];
    destruct (N.compare_spec (N_of_ascii x) (N_of_ascii z)) as [Exz|Lxz|Gxz];
    try congruence; try lia.
  apply IH.
Qed.

Lemma string_leb_false a b : String.leb a b = false -> String.leb b a = true.
Proof.
  intros H. destruct (String.leb_total a b) as [E|E]; congruence.
Qed.

Section LikeFacts.
Import JsString Spec.

Lemma cstring_noNul q : noNul q = true -> Sql.cstring q = q.
Proof.
  induction q as [|c q IH]; cbn [noNul Sql.cstring]; intros H; [reflexivity|].
  apply andb_true_iff in H as [Hc Hq]. apply negb_true_iff in Hc.
  rewrite Hc, (IH Hq). reflexivity.
Qed.

Lemma noNul_app a b : noNul (a ++ b) = noNul a && noNul b.
Proof.
  induction a as [|c a IH]; cbn [noNul append]; [reflexivity|].
  now rewrite IH, andb_assoc.
Qed.

Lemma likeC_percent pat s :
  Sql.likeC (String "%" pat) s = existsb (Sql.likeC pat) (Sql.charTails false s).
Proof. reflexivity. Qed.

Lemma likeC_underscore pat s :
  Sql.likeC (String "_" pat) s
  = match s with
    | EmptyString => false
    | String c s' => Sql.likeC pat (Sql.skipChar c s')
    end.
Proof. reflexivity. Qed.

Lemma likeC_literal p pat s :
  (p =? "%")%char = false -> (p =? "_")%char = false ->
  Sql.likeC (String p pat) s
  = match s with
    | EmptyString => false
    | String c s' => (lowerChar p =? lowerChar c)%char && Sql.likeC pat s'
    end.
Proof. intros H1 H2. cbn [Sql.likeC]. rewrite H1, H2. reflexivity. Qed.

(** The whole text and the empty text are among the texts left by
    skipping whole characters. *)
Lemma charTails_self s : In s (Sql.charTails false s).
Proof. destruct s; cbn; now left. Qed.

Lemma charTails_end mid s : In EmptyString (Sql.charTails mid s).
Proof.
  revert mid. induction s as [|c s IH]; intros mid; cbn [Sql.charTails].
  - now left.
  - destruct (mid && Sql.isContinuation c); [apply IH|right; apply IH].
Qed.

Lemma likeC_only_percent s : Sql.likeC "%" s = true.
Proof.
  rewrite likeC_percent. apply existsb_exists. exists EmptyString.
  split; [apply charTails_end|reflexivity].
Qed.

(** A byte that matches an ASCII byte up to case does not start a
    multi-byte character. *)
Lemma lowerChar_not_lead p c :
  Sql.isLead p = false -> lowerChar p = lowerChar c -> Sql.isLead c = false.
Proof.
  unfold lowerChar, Sql.isLead, isUpper. intros Hp E.
  destruct ((65 <=? N_of_ascii c)%N && (N_of_ascii c <=? 90)%N) eqn:Hc.
  - apply andb_true_iff in Hc as [_ Hc]. apply N.leb_le in Hc.
    apply N.leb_gt. lia.
  - destruct ((65 <=? N_of_ascii p)%N && (N_of_ascii p <=? 90)%N) eqn:Hu.
    + apply andb_true_iff in Hu as [_ Hu]. apply N.leb_le in Hu.
      rewrite <- E. rewrite N_ascii_embedding by lia. apply N.leb_gt. lia.
    + now rewrite <- E.
Qed.


(** With wildcards in it, the pattern still matches what it spells. *)
Lemma likeC_prefix_any q s :
  String.prefix (asciiLowerCase q) (asciiLowerCase s) = true ->
  Sql.likeC (q ++ "%") s = true.
Proof.
  revert s. induction q as [|p q IH]; intros s H.
  - apply likeC_only_percent.
  - destruct s as [|c s]; cbn [asciiLowerCase String.prefix] in H; [discriminate|].
    destruct (ascii_dec (lowerChar p) (lowerChar c)) as [E|]; [|discriminate].
    specialize (IH s H).
    change (String p q ++ "%")%string with (String p (q ++ "%")).
    destruct (p =? "%")%char eqn:E1.
    + apply Ascii.eqb_eq in E1. subst p.
      rewrite likeC_percent. apply existsb_exists. exists s. split; [|exact IH].
      cbn [Sql.charTails andb].
      rewrite (lowerChar_not_lead "%" c eq_refl E). right. apply charTails_self.
    + destruct (p =? "_")%char eqn:E2.
      * apply Ascii.eqb_eq in E2. subst p. rewrite likeC_underscore.
        unfold Sql.skipChar. now rewrite (lowerChar_not_lead "_" c eq_refl E).
      * rewrite (likeC_literal _ _ _ E1 E2), E, Ascii.eqb_refl. exact IH.
Qed.

Lemma lowerChar_continuation c : Sql.isContinuation c = true -> lowerChar c = c.
Proof.
  unfold Sql.isContinuation, lowerChar, isUpper. intros H.
  apply andb_true_iff in H as [H _]. apply N.leb_le in H.
  replace (N_of_ascii c <=? 90)%N with false by (symmetry; apply N.leb_gt; lia).
  now rewrite andb_false_r.
Qed.

Lemma lowerChar_keeps_start a :
  Sql.isContinuation a = false -> Sql.isContinuation (lowerChar a) = false.
Proof.
  unfold lowerChar, isUpper. intros H.
  destruct ((65 <=? N_of_ascii a)%N && (N_of_ascii a <=? 90)%N) eqn:Hu; [|exact H].
  apply andb_true_iff in Hu as [_ Hu]. apply N.leb_le in Hu.
  unfold Sql.isContinuation. rewrite N_ascii_embedding by lia.
  replace (128 <=? N_of_ascii a + 32)%N with false by (symmetry; apply N.leb_gt; lia).
  reflexivity.
Qed.

(** Looking for a prefix at every character of a text is looking for a
    substring, when what is looked for does not begin in the middle of a
    character. *)
Lemma charTails_includes q mid s :
  startsChar q = true ->
  existsb (fun u => String.prefix (asciiLowerCase q) (asciiLowerCase u))
          (Sql.charTails mid s)
  = includes (asciiLowerCase s) (asciiLowerCase q).
Proof.
  intros Hq. destruct q as [|a q].
  - cbn [asciiLowerCase]. transitivity true.
    + apply existsb_exists. exists EmptyString. split; [apply charTails_end|reflexivity].
    + destruct s; reflexivity.
  - cbn [startsChar] in Hq. apply negb_true_iff in Hq.
    revert mid. induction s as [|c s IH]; intros mid.
    + reflexivity.
    + cbn [Sql.charTails asciiLowerCase includes].
      destruct (mid && Sql.isContinuation c) eqn:E.
      * rewrite IH. apply andb_true_iff in E as [_ E].
        cbn [String.prefix].
        destruct (ascii_dec (lowerChar a) (lowerChar c)) as [Eq|]; [|reflexivity].
        exfalso. rewrite (lowerChar_continuation c E) in Eq.
        apply lowerChar_keeps_start in Hq. congruence.
      * cbn [existsb asciiLowerCase]. now rewrite IH.
Qed.

Lemma existsb_impl {A} (f g : A -> bool) l :
  (forall x, f x = true -> g x = true) -> existsb f l = true -> existsb g l = true.
Proof.
  intros H E. apply existsb_exists in E as [x [Hx Hf]].
  apply existsb_exists. exists x. split; [exact Hx|now apply H].
Qed.


Lemma like_pattern q s :
  noNul q = true ->
  Sql.like ("%" ++ q ++ "%") s
  = existsb (Sql.likeC (q ++ "%")) (Sql.charTails false (Sql.cstring s)).
Proof.
  intros Hq. unfold Sql.like. rewrite cstring_noNul; [reflexivity|].
  change ("%" ++ q ++ "%")%string with (String "%" (q ++ "%")).
  cbn [noNul]. now rewrite noNul_app, Hq.
Qed.


(** Whatever the query, LIKE '%query%' finds the texts that contain the
    query as it is written. *)
Lemma like_any_contains q s :
  noNul q = true -> startsChar q = true ->
  containsNoCase (Sql.cstring s) q = true -> Sql.like ("%" ++ q ++ "%") s = true.
Proof.
  intros H2 H3 H. rewrite (like_pattern q s H2). unfold containsNoCase in H.
  rewrite <- (charTails_includes q false _ H3) in H.
  revert H. apply existsb_impl. intros u. apply likeC_prefix_any.
Qed.

End LikeFacts.

(* ================================================================== *)
(** * The invariant of the store *)

Section StoreInvariant.
Import Database Storage Routes Spec.

Lemma preserves_ret P {A} (a : A) : preserves P (ret a).
Proof. intros fs db H. exact H. Qed.

Lemma preserves_run P {A} (f : DB -> A * DB) :
  (forall db, P db -> P (snd (f db))) -> preserves P (run f).
Proof.
  intros Hf fs db H. unfold run.
  destruct fs as [|[|] fs]; simpl; try exact H;
    specialize (Hf db H); destruct (f db); exact Hf.
Qed.

Lemma preserves_bind P {A B} (m : Stmt A) (k : A -> Stmt B) :
  preserves P m -> (forall a, preserves P (k a)) -> preserves P (bind m k).
Proof.
  intros Hm Hk fs db H. unfold bind.
  specialize (Hm fs db H). destruct (m fs db) as [a db' fs'|db']; simpl in *.
  - apply Hk, Hm.
  - exact Hm.
Qed.

Lemma preserves_query P {A} (f : DB -> A) : preserves P (query f).
Proof. apply preserves_run. intros db H. exact H. Qed.

Lemma preserves_exec P (f : DB -> DB) :
  (forall db, P db -> P (f db)) -> preserves P (exec f).
Proof. intros Hf. apply preserves_run. exact Hf. Qed.

Lemma handle_final m fs db : snd (handle m fs db) = final (m fs db).
Proof. unfold handle. destruct (m fs db); reflexivity. Qed.

Lemma updateReviewed_message_id v cid l :
  map message_id (map (updateReviewed v cid) l) = map message_id l.
Proof.
  rewrite map_map. apply map_ext. intros c. unfold updateReviewed.
  destruct (id c =? cid); reflexivity.
Qed.

Lemma updateReviewed_id v cid l :
  map id (map (updateReviewed v cid) l) = map id l.
Proof.
  rewrite map_map. apply map_ext. intros c. unfold updateReviewed.
  destruct (id c =? cid); reflexivity.
Qed.

Lemma wf_init : wf initDatabase.
Proof. split; simpl; constructor. Qed.

Lemma wf_updateReviewed v cid db :
  v = 0 \/ v = 1 ->
  wf db -> wf (set_candidates db (map (updateReviewed v cid) (email_candidates db))).
Proof.
  intros Hv [H1 H2 H3 H4 H5 H6]. split; simpl; try assumption.
  - now rewrite updateReviewed_message_id.
  - now rewrite updateReviewed_id.
  - rewrite Forall_map. eapply Forall_impl; [|exact H3]. intros c Hc.
    unfold updateReviewed. destruct (id c =? cid); exact Hc.
  - rewrite Forall_map. eapply Forall_impl; [|exact H4]. intros c Hc.
    unfold updateReviewed. destruct (id c =? cid); [exact Hv|exact Hc].
Qed.

Lemma wf_markAsReviewed cid db : wf db -> wf (markAsReviewed db cid).
Proof. apply wf_updateReviewed. now right. Qed.

Lemma wf_markAsUnreviewed cid db : wf db -> wf (markAsUnreviewed db cid).
Proof. apply wf_updateReviewed. now left. Qed.

Lemma wf_insertReviewDecision db now cid m v n :
  wf db -> wf (insertReviewDecision db now cid m v n).
Proof.
  intros [H1 H2 H3 H4 H5 H6]. split; simpl; try assumption.
  - rewrite map_app. simpl. apply NoDup_Add with (a := seq_decisions db + 1)
      (l := map d_id (review_decisions db)).
    + rewrite <- (app_nil_r (map d_id (review_decisions db))) at 1.
      apply Add_app.
    + split; [exact H5|]. intros Hin. apply in_map_iff in Hin as [d [Hd Hin]].
      rewrite Forall_forall in H6. specialize (H6 d Hin). lia.
  - apply Forall_app. split.
    + eapply Forall_impl; [|exact H6]. simpl. intros; lia.
    + constructor; [simpl; lia|constructor].
Qed.

Lemma wf_insertConfirmedFlight db now m g s :
  wf db -> wf (insertConfirmedFlight db now m g s).
Proof.
  intros H. unfold insertConfirmedFlight. cbn zeta.
  destruct (existsb _ _); destruct H; split; assumption.
Qed.

Lemma wf_deleteDecision db did : wf db -> wf (deleteDecision db did).
Proof.
  intros [H1 H2 H3 H4 H5 H6]. split; simpl; try assumption.
  - clear H6. induction (review_decisions db) as [|d l IH]; simpl; [constructor|].
    inversion H5 as [|? ? Hn Hl]; subst.
    destruct (negb (d_id d =? did)); simpl; [|now apply IH].
    constructor; [|now apply IH].
    intros Hin. apply Hn. apply in_map_iff in Hin as [d' [Hd' Hin]].
    apply filter_In in Hin as [Hin _]. apply in_map_iff. eauto.
  - rewrite Forall_forall in *. intros d Hd. apply filter_In in Hd as [Hd _]. auto.
Qed.

Lemma existsb_message_id l m :
  existsb (fun r => (message_id r =? m)%string) l = false ->
  ~ In m (map message_id l).
Proof.
  intros H Hin. apply in_map_iff in Hin as [c [Hc Hin]].
  assert (existsb (fun r => (message_id r =? m)%string) l = true) as E.
  { apply existsb_exists. exists c. split; [exact Hin|]. now apply String.eqb_eq. }
  congruence.
Qed.

Lemma wf_insertCandidate now db c : wf db -> wf (insertCandidate now db c).
Proof.
  intros H. unfold insertCandidate. cbn zeta.
  destruct (existsb _ _) eqn:E.
  { destruct H as [H1 H2 H3 H4 H5 H6]. split; simpl; try assumption.
    eapply Forall_impl; [|exact H3]. simpl. intros; lia. }
  destruct H as [H1 H2 H3 H4 H5 H6]. split; simpl; try assumption.
  - rewrite map_app. simpl.
    apply NoDup_Add with (a := n_message_id c) (l := map message_id (email_candidates db)).
    + rewrite <- (app_nil_r (map message_id (email_candidates db))) at 1.
      apply Add_app.
    + split; [exact H1|]. now apply existsb_message_id.
  - rewrite map_app. simpl.
    apply NoDup_Add with (a := seq_candidates db + 1) (l := map id (email_candidates db)).
    + rewrite <- (app_nil_r (map id (email_candidates db))) at 1.
      apply Add_app.
    + split; [exact H2|]. intros Hin. apply in_map_iff in Hin as [r [Hr Hin]].
      rewrite Forall_forall in H3. specialize (H3 r Hin). lia.
  - apply Forall_app. split.
    + eapply Forall_impl; [|exact H3]. simpl. intros; lia.
    + constructor; [simpl; lia|constructor].
  - apply Forall_app. split; [exact H4|]. constructor; [now left|constructor].
Qed.

Lemma wf_insertEach clock i cs db : wf db -> wf (insertEach clock i cs db).
Proof.
  revert i db. induction cs as [|c cs IH]; intros i db H; simpl; [exact H|].
  apply IH, wf_insertCandidate, H.
Qed.

Lemma wf_insertCandidates clock cs db :
  wf db -> wf (snd (insertCandidates db clock cs)).
Proof. apply wf_insertEach. Qed.

Lemma reviewBody_preserves now decision : preserves wf (reviewBody now decision).
Proof.
  unfold reviewBody.
  destruct (email_id decision) as [eid|]; [|apply preserves_ret].
  destruct (Routes.is_flight_confirmation decision) as [verdict|]; [|apply preserves_ret].
  destruct (eid =? "")%string; [apply preserves_ret|].
  apply preserves_bind; [apply preserves_query|]. intros [c|]; [|apply preserves_ret].
  apply preserves_bind.
  { apply preserves_exec. intros db. apply wf_insertReviewDecision. }
  intros _. apply preserves_bind.
  { apply preserves_exec. intros db. apply wf_markAsReviewed. }
  intros _. apply preserves_bind.
  { destruct verdict; [|apply preserves_ret].
    apply preserves_exec. intros db. apply wf_insertConfirmedFlight. }
  intros _. apply preserves_bind; [apply preserves_query|].
  intros r. apply preserves_ret.
Qed.

Lemma undoBody_preserves : preserves wf undoBody.
Proof.
  unfold undoBody.
  apply preserves_bind; [apply preserves_query|]. intros [d|]; [|apply preserves_ret].
  apply preserves_bind.
  { apply preserves_exec. intros db. apply wf_deleteDecision. }
  intros _. apply preserves_bind.
  { apply preserves_exec. intros db. apply wf_markAsUnreviewed. }
  intros _. apply preserves_ret.
Qed.

Lemma wf_step r db : wf db -> wf (step r db).
Proof.
  intros H. destruct r as [now cs|now fs decision|fs]; simpl.
  - apply (wf_insertCandidates now cs db H).
  - unfold postReview. rewrite handle_final. now apply reviewBody_preserves.
  - unfold postUndo. rewrite handle_final. now apply undoBody_preserves.
Qed.

Lemma reachable_wf db : reachable db -> wf db.
Proof.
  induction 1 as [|db r _ IH]; [apply wf_init|apply wf_step, IH].
Qed.

Lemma reachable_run rs db : reachable db -> reachable (run_requests rs db).
Proof.
  unfold run_requests. revert db.
  induction rs as [|r rs IH]; intros db H; simpl; [exact H|].
  apply IH. now constructor.
Qed.

End StoreInvariant.

(* ================================================================== *)
(** * Counts and ingestion *)

Section CountsAndIngestion.
Import Database Storage Routes Spec Samples.

Lemma count_reviewed_split l :
  Forall (fun c => reviewed c = 0 \/ reviewed c = 1) l ->
  count l = count (filter isReviewed l) + count (filter isUnreviewed l).
Proof.
  unfold count. induction 1 as [|c l Hc Hl IH]; [reflexivity|].
  cbn [filter]. unfold isReviewed at 1, isUnreviewed at 1.
  destruct Hc as [E|E]; rewrite E; cbn [Z.eqb Pos.eqb List.length];
    rewrite ?Nat2Z.inj_succ; lia.
Qed.

(** C5: in every reachable state of the store,
    countTotal = countReviewed + countUnreviewed. *)
Theorem count_invariant db :
  reachable db ->
  countTotalCandidates db = countReviewed db + countUnreviewed db.
Proof.
  intros H. apply reachable_wf in H.
  unfold countTotalCandidates, countReviewed, countUnreviewed.
  apply count_reviewed_split, (wf_reviewed _ H).
Qed.

Lemma count_invariant_witness :
  countTotalCandidates twoReviewed = countReviewed twoReviewed + countUnreviewed twoReviewed.
Proof.
  apply (count_invariant twoReviewed).
  apply reachable_run. constructor.
Defined.


Lemma insertCandidate_rows now db c :
  exists extra,
    email_candidates (insertCandidate now db c) = (email_candidates db ++ extra)%list.
Proof.
  unfold insertCandidate. cbn zeta. destruct (existsb _ _).
  - exists []. cbn [email_candidates]. now rewrite app_nil_r.
  - eexists. reflexivity.
Qed.

Lemma insertCandidate_other_tables now db c :
  review_decisions (insertCandidate now db c) = review_decisions db /\
  confirmed_flights (insertCandidate now db c) = confirmed_flights db /\
  seq_candidates (insertCandidate now db c) = seq_candidates db + 1.
Proof. unfold insertCandidate. cbn zeta. destruct (existsb _ _); repeat split. Qed.



Lemma insertCandidate_keeps_row now db c m r :
  getCandidateByMessageId db m = Some r ->
  getCandidateByMessageId (insertCandidate now db c) m = Some r.
Proof.
  unfold getCandidateByMessageId. destruct (insertCandidate_rows now db c) as [extra ->].
  generalize (email_candidates db) as l. induction l as [|y l IH]; simpl; [discriminate|].
  destruct (message_id y =? m)%string; auto.
Qed.


Lemma each_keeps_row clock i cs db m r :
  getCandidateByMessageId db m = Some r ->
  getCandidateByMessageId (insertEach clock i cs db) m = Some r.
Proof.
  revert i db. induction cs as [|c cs IH]; intros i db H; simpl; [exact H|].
  apply IH, insertCandidate_keeps_row, H.
Qed.

Lemma each_other_tables clock i cs db :
  review_decisions (insertEach clock i cs db) = review_decisions db /\
  confirmed_flights (insertEach clock i cs db) = confirmed_flights db /\
  seq_candidates (insertEach clock i cs db) = seq_candidates db + count cs.
Proof.
  unfold count. revert i db. induction cs as [|c cs IH]; intros i db; cbn [insertEach].
  - cbn. repeat split. lia.
  - destruct (IH (S i) (insertCandidate (clock i) db c)) as (E1 & E2 & E3).
    destruct (insertCandidate_other_tables (clock i) db c) as (F1 & F2 & F3).
    rewrite E1, E2, E3, F1, F2, F3. cbn [List.length]. rewrite Nat2Z.inj_succ.
    repeat split. lia.
Qed.








Lemma filter_none {A} (f : A -> bool) l :
  (forall x, In x l -> f x = false) -> filter f l = [].
Proof.
  induction l as [|y l IH]; intros H; simpl; [reflexivity|].
  rewrite (H y (or_introl eq_refl)). apply IH. intros x Hx. apply H. now right.
Qed.




End CountsAndIngestion.

(* ================================================================== *)
(** * Submitting and undoing decisions *)

(** Unfolds a review handler down to its statements. *)
Ltac run_handler :=
  unfold Routes.postReview, Routes.handle, Routes.reviewBody, Spec.submit,
    Spec.reviewed_state;
  cbn [Routes.email_id Routes.is_flight_confirmation Routes.notes];
  unfold Storage.bind, Storage.query, Storage.exec, Storage.run, Storage.ret.

Section ReviewAndUndo.
Import Database Storage Routes Spec Samples.

Lemma not_empty_eqb m : m <> "" -> (m =? "")%string = false.
Proof. intros H. now apply String.eqb_neq. Qed.

Lemma postReview_success db now m verdict note c :
  m <> "" ->
  getCandidateByMessageId db m = Some c ->
  postReview now [] (submit m verdict note) db
  = (ReviewSuccess (countUnreviewed (reviewed_state db now m verdict note c)),
     reviewed_state db now m verdict note c).
Proof.
  intros Hm Hc. unfold postReview, handle, reviewBody, submit, reviewed_state.
  cbn [email_id Routes.is_flight_confirmation Routes.notes].
  rewrite (not_empty_eqb _ Hm).
  unfold bind, query, exec, run, ret. rewrite Hc.
  destruct verdict; reflexivity.
Qed.

Lemma postUndo_success db d :
  getLastDecision db = Some d ->
  postUndo [] db
  = (UndoSuccess (d_message_id d),
     markAsUnreviewed (deleteDecision db (d_id d)) (email_candidate_id d)).
Proof.
  intros Hd. unfold postUndo, handle, undoBody, bind, query, exec, run, ret.
  rewrite Hd. reflexivity.
Qed.

Lemma postUndo_nothing db :
  getLastDecision db = None -> postUndo [] db = (NotFound, db).
Proof.
  intros Hd. unfold postUndo, handle, undoBody, bind, query, exec, run, ret.
  rewrite Hd. reflexivity.
Qed.

Lemma reviewed_state_decisions db now m verdict note c :
  review_decisions (reviewed_state db now m verdict note c)
  = (review_decisions db ++ [decision_row db now m verdict note c])%list.
Proof.
  unfold reviewed_state, insertConfirmedFlight.
  destruct verdict; [destruct (existsb _ _)|]; reflexivity.
Qed.

Lemma reviewed_state_candidates db now m verdict note c :
  email_candidates (reviewed_state db now m verdict note c)
  = map (updateReviewed 1 (id c)) (email_candidates db).
Proof.
  unfold reviewed_state, insertConfirmedFlight.
  destruct verdict; [destruct (existsb _ _)|]; reflexivity.
Qed.

Lemma reviewed_state_confirmed db now m c note :
  existsb (fun f => (f_message_id f =? m)%string)
          (confirmed_flights (reviewed_state db now m true note c)) = true.
Proof.
  unfold reviewed_state, insertConfirmedFlight. cbn [confirmed_flights markAsReviewed
    set_candidates insertReviewDecision].
  destruct (existsb _ (confirmed_flights db)) eqn:E; cbn [confirmed_flights].
  - exact E.
  - rewrite existsb_app. simpl. rewrite String.eqb_refl. apply orb_true_r.
Qed.

Lemma getLastDecision_decisions db db' :
  review_decisions db = review_decisions db' -> getLastDecision db = getLastDecision db'.
Proof. unfold getLastDecision. intros ->. reflexivity. Qed.

(** The row returned by getLastDecision has the largest timestamp. *)
Lemma getLastDecision_latest db d :
  getLastDecision db = Some d ->
  In d (review_decisions db) /\
  Forall (fun d' => reviewed_at d' <= reviewed_at d) (review_decisions db).
Proof.
  unfold getLastDecision.
  assert (Hs : StronglySorted (fun a b => reviewed_at b <= reviewed_at a)
                 (Sql.orderBy byReviewedAt (review_decisions db))).
  { apply orderBy_sorted; unfold byReviewedAt; intros; lia. }
  assert (Hp := orderBy_perm byReviewedAt (review_decisions db)).
  destruct (Sql.orderBy byReviewedAt (review_decisions db)) as [|x l]; [discriminate|].
  cbn. intros [= ->]. split.
  - eapply Permutation_in; [apply Permutation_sym, Hp|now left].
  - rewrite Forall_forall. intros d' Hd'.
    apply (Permutation_in _ Hp) in Hd'. destruct Hd' as [->|Hd']; [lia|].
    apply StronglySorted_inv in Hs as [_ Hs]. rewrite Forall_forall in Hs. now apply Hs.
Qed.

Lemma getLastDecision_none db :
  getLastDecision db = None <-> review_decisions db = [].
Proof.
  unfold getLastDecision. split.
  - intros H. assert (Hl := orderBy_length byReviewedAt (review_decisions db)).
    destruct (Sql.orderBy byReviewedAt (review_decisions db)); [|discriminate].
    destruct (review_decisions db); [reflexivity|discriminate].
  - intros ->. reflexivity.
Qed.

(** A decision stamped strictly later than the whole log is the last
    decision. *)
Lemma getLastDecision_newest db d old :
  review_decisions db = (old ++ [d])%list ->
  Forall (fun d' => reviewed_at d' < reviewed_at d) old ->
  getLastDecision db = Some d.
Proof.
  intros E H. unfold getLastDecision. rewrite E, orderBy_snoc_first; [reflexivity|].
  eapply Forall_impl; [|exact H]. intros d' Hd'. unfold byReviewedAt. simpl in Hd'. lia.
Qed.

Lemma delete_newest old d :
  Forall (fun d' => d_id d' < d_id d) old ->
  filter (fun d' => negb (d_id d' =? d_id d)) (old ++ [d]) = old.
Proof.
  intros H. rewrite filter_app. simpl. rewrite Z.eqb_refl. simpl. rewrite app_nil_r.
  induction H as [|x l Hx Hl IH]; simpl; [reflexivity|].
  replace (d_id x =? d_id d) with false by (symmetry; apply Z.eqb_neq; lia).
  simpl. now rewrite IH.
Qed.

Lemma find_updateReviewed v cid m l :
  find (fun c => (message_id c =? m)%string) (map (updateReviewed v cid) l)
  = option_map (updateReviewed v cid) (find (fun c => (message_id c =? m)%string) l).
Proof.
  induction l as [|y l IH]; simpl; [reflexivity|].
  replace (message_id (updateReviewed v cid y)) with (message_id y)
    by (unfold updateReviewed; destruct (id y =? cid); reflexivity).
  destruct (message_id y =? m)%string; [reflexivity|exact IH].
Qed.

Lemma set_reviewed_same c : set_reviewed (reviewed c) c = c.
Proof. destruct c; reflexivity. Qed.

Lemma NoDup_map_eq {A B} (f : A -> B) l a b :
  NoDup (map f l) -> In a l -> In b l -> f a = f b -> a = b.
Proof.
  induction l as [|y l IH]; simpl; [tauto|].
  intros Hnd Ha Hb E. inversion Hnd as [|? ? Hn Hl]; subst.
  destruct Ha as [->|Ha], Hb as [->|Hb]; auto.
  - exfalso. apply Hn. rewrite E. now apply in_map.
  - exfalso. apply Hn. rewrite <- E. now apply in_map.
Qed.

(** Writing to the reviewed flag of [c] the value it already has changes
    no row. *)
Lemma updateReviewed_same l c :
  NoDup (map id l) -> In c l ->
  map (updateReviewed (reviewed c) (id c)) l = l.
Proof.
  intros Hnd Hc. rewrite <- (map_id l) at 2. apply map_ext_in. intros y Hy.
  unfold updateReviewed. destruct (id y =? id c) eqn:E; [|reflexivity].
  apply Z.eqb_eq in E. rewrite (NoDup_map_eq id l y c Hnd Hy Hc E).
  apply set_reviewed_same.
Qed.

Lemma updateReviewed_twice v w cid l :
  map (updateReviewed v cid) (map (updateReviewed w cid) l)
  = map (updateReviewed v cid) l.
Proof.
  rewrite map_map. apply map_ext. intros y. unfold updateReviewed.
  destruct (id y =? cid) eqn:E; [|now rewrite E].
  cbn [id set_reviewed]. rewrite E. reflexivity.
Qed.

Lemma found_in db m c :
  getCandidateByMessageId db m = Some c ->
  In c (email_candidates db) /\ message_id c = m.
Proof.
  unfold getCandidateByMessageId. intros H. apply find_some in H as [H1 H2].
  split; [exact H1|now apply String.eqb_eq].
Qed.

(** Where a review can leave the store, whatever statement throws. *)
Lemma postReview_final now fs decision db :
  snd (postReview now fs decision db) = db \/
  exists m verdict c,
    m <> "" /\ getCandidateByMessageId db m = Some c /\
    let db1 := insertReviewDecision db now (id c) m verdict (Routes.notes decision) in
    let db2 := markAsReviewed db1 (id c) in
    let db3 := insertConfirmedFlight db2 now m (gmail_uid c) (subject c) in
    snd (postReview now fs decision db) = db1 \/
    snd (postReview now fs decision db) = db2 \/
    snd (postReview now fs decision db) = db3.
Proof.
  destruct decision as [[m|] [verdict|] note]; try (left; reflexivity).
  destruct (m =? "")%string eqn:Hm.
  { left. run_handler. now rewrite Hm. }
  apply String.eqb_neq in Hm.
  destruct (getCandidateByMessageId db m) as [c|] eqn:Hc.
  - destruct fs as [|[|] [|[|] [|[|] [|[|] [|[|] fs]]]]];
      run_handler; rewrite (not_empty_eqb _ Hm), ?Hc; destruct verdict; cbn [snd];
      try (left; reflexivity);
      right; exists m; eexists; exists c; (split; [exact Hm|split; [exact Hc|]]);
      cbn zeta; first [left; reflexivity|right; left; reflexivity|right; right; reflexivity].
  - left. run_handler. rewrite (not_empty_eqb _ Hm).
    destruct fs as [|[|] fs]; rewrite ?Hc; reflexivity.
Qed.

Lemma reviewed_have_id_init : reviewed_have_id initDatabase.
Proof. constructor. Qed.

Lemma reviewed_have_id_candidates db db' :
  email_candidates db' = email_candidates db ->
  reviewed_have_id db -> reviewed_have_id db'.
Proof. unfold reviewed_have_id. now intros ->. Qed.

Lemma reviewed_have_id_markAsUnreviewed db cid :
  reviewed_have_id db -> reviewed_have_id (markAsUnreviewed db cid).
Proof.
  unfold reviewed_have_id. cbn [markAsUnreviewed set_candidates email_candidates].
  intros H. rewrite Forall_map. eapply Forall_impl; [|exact H]. intros c Hc.
  unfold updateReviewed. destruct (id c =? cid); [discriminate|exact Hc].
Qed.

Lemma reviewed_have_id_markAsReviewed db c :
  NoDup (map id (email_candidates db)) ->
  In c (email_candidates db) -> message_id c <> "" ->
  reviewed_have_id db -> reviewed_have_id (markAsReviewed db (id c)).
Proof.
  unfold reviewed_have_id. cbn [markAsReviewed set_candidates email_candidates].
  intros Hnd Hin Hm H. rewrite Forall_map. rewrite Forall_forall in *.
  intros y Hy. unfold updateReviewed. destruct (id y =? id c) eqn:E.
  - apply Z.eqb_eq in E. rewrite (NoDup_map_eq id _ y c Hnd Hy Hin E).
    intros _. exact Hm.
  - now apply H.
Qed.

Lemma reviewed_have_id_insertCandidates clock cs db :
  reviewed_have_id db -> reviewed_have_id (snd (insertCandidates db clock cs)).
Proof.
  unfold insertCandidates. cbn [snd]. generalize 0%nat as i. revert db.
  induction cs as [|c cs IH]; intros db i H; simpl; [exact H|].
  apply IH. unfold insertCandidate. cbn zeta. destruct (existsb _ _); [exact H|].
  unfold reviewed_have_id in *. cbn [email_candidates].
  apply Forall_app. split; [exact H|]. constructor; [discriminate|constructor].
Qed.

Lemma reviewed_have_id_step r db :
  wf db -> reviewed_have_id db -> reviewed_have_id (step r db).
Proof.
  intros Hwf H. destruct r as [now cs|now fs decision|fs]; cbn [step].
  - now apply reviewed_have_id_insertCandidates.
  - destruct (postReview_final now fs decision db) as [->|(m & v & c & Hm & Hc & Hfin)];
      [exact H|].
    destruct (found_in _ _ _ Hc) as [Hin Hmc]. cbn zeta in Hfin.
    assert (H2 : reviewed_have_id
                   (markAsReviewed
                      (insertReviewDecision db now (id c) m v (Routes.notes decision))
                      (id c))).
    { apply reviewed_have_id_markAsReviewed.
      - exact (wf_ids _ Hwf).
      - exact Hin.
      - now rewrite Hmc.
      - exact H. }
    destruct Hfin as [->|[->| ->]].
    + exact H.
    + exact H2.
    + unfold insertConfirmedFlight. destruct (existsb _ _); exact H2.
  - unfold postUndo. rewrite handle_final.
    clear Hwf. revert fs db H.
    change (preserves reviewed_have_id undoBody).
    unfold undoBody.
    apply preserves_bind; [apply preserves_query|]. intros [d|]; [|apply preserves_ret].
    apply preserves_bind.
    { apply preserves_exec. intros db. now apply reviewed_have_id_candidates. }
    intros _. apply preserves_bind.
    { apply preserves_exec. intros db. apply reviewed_have_id_markAsUnreviewed. }
    intros _. apply preserves_ret.
Qed.

Lemma reachable_reviewed_have_id db : reachable db -> reviewed_have_id db.
Proof.
  induction 1 as [|db r Hr IH]; [apply reviewed_have_id_init|].
  apply reviewed_have_id_step; [now apply reachable_wf|exact IH].
Qed.

End ReviewAndUndo.

Section ReviewClaims.
Import Database Storage Routes Spec Samples.

(** C1, as stated, fails.  After a positive decision on the only
    candidate and an immediate undo, the confirmed_flights row that the
    decision created is still there.  And when the candidate had been
    reviewed before, the undo marks it unreviewed: countUnreviewed ends at
    1 where it was 0 before the decision. *)
Lemma undo_roundtrip_counterexample :
  (let after_review := postReview 200 [] (submit "msg1" true None) oneCandidate in
   let after_undo := postUndo [] (snd after_review) in
   confirmed_flights oneCandidate = [] /\
   fst after_review = ReviewSuccess 0 /\
   fst after_undo = UndoSuccess "msg1" /\
   confirmed_flights (snd after_undo)
   = [mkConfirmedFlight 1 "msg1" "uid1" "United Flight Confirmation" 0 None None None 200]) /\
  (let after_review := postReview 200 [] (submit "msg1" true None) oneRejected in
   let after_undo := postUndo [] (snd after_review) in
   countUnreviewed oneRejected = 0 /\
   fst after_review = ReviewSuccess 0 /\
   fst after_undo = UndoSuccess "msg1" /\
   countUnreviewed (snd after_undo) = 1).
Proof. repeat split. Qed.

(** CURRENT_TIMESTAMP has a resolution of one second, and ORDER BY
    reviewed_at DESC says nothing about decisions stamped with the same
    second; with rows of equal keys kept in rowid order, an undo right
    after the second of two such decisions removes the first of them.
    The round trip below therefore asks for a later timestamp. *)
Example undo_same_second :
  let db := run_requests [Ingest (fun _ => 100) [msg1; msg2];
                          Review 150 [] (submit "msg1" true None);
                          Review 150 [] (submit "msg2" false None)] initDatabase in
  fst (postUndo [] db) = UndoSuccess "msg1".
Proof. reflexivity. Qed.

(** C1, amended: for a reachable store, a stored candidate with a
    non-empty message identifier and a decision stamped later than every
    decision of the log, submitting the decision and undoing at once
    sets the candidate's reviewed flag to 0 and leaves the decision log as
    it was before the decision; confirmed_flights is left as the decision
    left it (the entry of a positive decision stays); when the candidate
    was unreviewed before the decision, the candidate table and
    countUnreviewed are back at their values before it. *)
Theorem undo_roundtrip db now m verdict note c :
  reachable db ->
  m <> "" ->
  getCandidateByMessageId db m = Some c ->
  Forall (fun d => reviewed_at d < now) (review_decisions db) ->
  let after_review := postReview now [] (submit m verdict note) db in
  let after_undo := postUndo [] (snd after_review) in
  fst after_review = ReviewSuccess (countUnreviewed (snd after_review)) /\
  fst after_undo = UndoSuccess m /\
  getCandidateByMessageId (snd after_undo) m = Some (set_reviewed 0 c) /\
  review_decisions (snd after_undo) = review_decisions db /\
  confirmed_flights (snd after_undo) = confirmed_flights (snd after_review) /\
  (verdict = true ->
   existsb (fun f => (f_message_id f =? m)%string)
           (confirmed_flights (snd after_undo)) = true) /\
  (reviewed c = 0 ->
   email_candidates (snd after_undo) = email_candidates db /\
   countUnreviewed (snd after_undo) = countUnreviewed db).
Proof.
  intros Hreach Hm Hc Hnow. cbn zeta.
  apply reachable_wf in Hreach. destruct (found_in _ _ _ Hc) as [Hin Hmc].
  rewrite (postReview_success db now m verdict note c Hm Hc). cbn [fst snd].
  set (db2 := reviewed_state db now m verdict note c).
  assert (Hlast : getLastDecision db2 = Some (decision_row db now m verdict note c)).
  { apply getLastDecision_newest with (old := review_decisions db).
    - apply reviewed_state_decisions.
    - exact Hnow. }
  rewrite (postUndo_success db2 _ Hlast). cbn [fst snd].
  change (d_id (decision_row db now m verdict note c)) with (seq_decisions db + 1).
  change (email_candidate_id (decision_row db now m verdict note c)) with (id c).
  change (d_message_id (decision_row db now m verdict note c)) with m.
  assert (Hcands : email_candidates
            (markAsUnreviewed (deleteDecision db2 (seq_decisions db + 1)) (id c))
          = map (updateReviewed 0 (id c)) (email_candidates db)).
  { cbn [markAsUnreviewed deleteDecision set_candidates set_decisions email_candidates
         d_id email_candidate_id].
    unfold db2. rewrite reviewed_state_candidates. apply updateReviewed_twice. }
  split; [reflexivity|]. split; [reflexivity|].
  split; [|split; [|split; [reflexivity|split]]].
  - unfold getCandidateByMessageId. rewrite Hcands, find_updateReviewed.
    unfold getCandidateByMessageId in Hc. rewrite Hc. cbn [option_map].
    unfold updateReviewed. now rewrite Z.eqb_refl.
  - cbn [markAsUnreviewed deleteDecision set_candidates set_decisions review_decisions].
    unfold db2. rewrite reviewed_state_decisions.
    apply (delete_newest (review_decisions db) (decision_row db now m verdict note c)).
    eapply Forall_impl; [|exact (wf_decision_seq _ Hreach)].
    intros d Hd. cbn [decision_row d_id]. simpl in Hd. lia.
  - intros ->. cbn [markAsUnreviewed deleteDecision set_candidates set_decisions
                    confirmed_flights].
    apply reviewed_state_confirmed.
  - intros Hrev.
    assert (Hsame : map (updateReviewed 0 (id c)) (email_candidates db)
                    = email_candidates db).
    { rewrite <- Hrev. apply updateReviewed_same; [exact (wf_ids _ Hreach)|exact Hin]. }
    split.
    + now rewrite Hcands.
    + unfold countUnreviewed. now rewrite Hcands, Hsame.
Qed.

Lemma undo_roundtrip_witness :
  review_decisions
    (snd (postUndo [] (snd (postReview 200 [] (submit "msg1" true None) oneRejected))))
  = review_decisions oneRejected.
Proof.
  pose proof (undo_roundtrip oneRejected 200 "msg1" true None
                (mkEmailCandidate 1 "msg1" "uid1" "United Flight Confirmation"
                   "noreply@united.com" "2024-01-01" "Your flight is confirmed"
                   "<html>Flight details</html>" "Flight details" 85
                   "[Known airline sender]" 100 1)) as H.
  cbn zeta in H.
  destruct H as (_ & _ & _ & H & _).
  - apply reachable_run. constructor.
  - discriminate.
  - reflexivity.
  - repeat constructor.
  - exact H.
Defined.




Lemma postUndo_notfound_iff db :
  fst (postUndo [] db) = NotFound <-> review_decisions db = [].
Proof.
  rewrite <- getLastDecision_none.
  destruct (getLastDecision db) as [d|] eqn:E.
  - rewrite (postUndo_success _ _ E). cbn [fst]. split; discriminate.
  - rewrite (postUndo_nothing _ E). cbn [fst]. tauto.
Qed.

Lemma delete_one l d :
  NoDup (map d_id l) -> In d l ->
  List.length (filter (fun d' => negb (d_id d' =? d_id d)) l) = Nat.pred (List.length l).
Proof.
  intros Hnd Hin. induction l as [|x l IH]; simpl in *; [tauto|].
  inversion Hnd as [|? ? Hn Hl]; subst.
  destruct Hin as [->|Hin].
  - rewrite Z.eqb_refl. simpl.
    rewrite forallb_filter_id; [reflexivity|].
    apply forallb_forall. intros y Hy. apply negb_true_iff, Z.eqb_neq.
    intros E. apply Hn. rewrite <- E. now apply in_map.
  - destruct (d_id x =? d_id d) eqn:E.
    + apply Z.eqb_eq in E. exfalso. apply Hn. rewrite E. now apply in_map.
    + simpl. rewrite IH by assumption. destruct l; [contradiction|reflexivity].
Qed.

(** C8, as stated, fails: with two decisions in the log, two undos in a
    row both succeed; the second removes the decision before the last. *)
Lemma double_undo_counterexample :
  let first := postUndo [] twoReviewed in
  let second := postUndo [] (snd first) in
  List.length (review_decisions twoReviewed) = 2%nat /\
  fst first = UndoSuccess "msg2" /\
  fst second = UndoSuccess "msg1" /\
  review_decisions (snd second) = [] /\
  countUnreviewed (snd second) = 2.
Proof. repeat split. Qed.

(** C8, amended: with an empty decision log, undo answers NotFound and
    changes no state.  An undo removes one decision of the log, and undo
    has as many levels as the log has decisions: the second of two undos
    in a row answers NotFound exactly when the log held at most one
    decision before the first, and it then changes no state; when the log
    held two decisions or more, the second undo succeeds and removes from
    the log a decision left by the first whose review time none of the
    decisions left exceeds. *)
Theorem undo_empty_log db :
  reachable db ->
  (review_decisions db = [] ->
   postUndo [] db = (NotFound, db) /\
   forall fs, postUndo (false :: fs) db = (NotFound, db)) /\
  (let once := snd (postUndo [] db) in
   List.length (review_decisions once) = Nat.pred (List.length (review_decisions db)) /\
   (fst (postUndo [] once) = NotFound <-> (List.length (review_decisions db) <= 1)%nat) /\
   (fst (postUndo [] once) = NotFound -> snd (postUndo [] once) = once) /\
   ((2 <= List.length (review_decisions db))%nat ->
    exists d1 d2,
      fst (postUndo [] db) = UndoSuccess (d_message_id d1) /\
      fst (postUndo [] once) = UndoSuccess (d_message_id d2) /\
      In d1 (review_decisions db) /\
      In d2 (review_decisions db) /\
      d_id d2 <> d_id d1 /\
      (forall d, In d (review_decisions db) -> reviewed_at d <= reviewed_at d1) /\
      (forall d, In d (review_decisions db) -> d_id d <> d_id d1 ->
                 reviewed_at d <= reviewed_at d2) /\
      review_decisions once
      = filter (fun d => negb (d_id d =? d_id d1)) (review_decisions db) /\
      review_decisions (snd (postUndo [] once))
      = filter (fun d => negb (d_id d =? d_id d2)) (review_decisions once))).
Proof.
  intros Hreach. apply reachable_wf in Hreach. split; [|cbn zeta; split; [|split; [|split]]].
  - intros E. apply getLastDecision_none in E. split.
    + now apply postUndo_nothing.
    + intros fs. unfold postUndo, handle, undoBody, bind, query, exec, run, ret.
      now rewrite E.
  - destruct (getLastDecision db) as [d|] eqn:E.
    + rewrite (postUndo_success _ _ E). cbn [snd].
      destruct (getLastDecision_latest _ _ E) as [Hin _].
      apply (delete_one _ _ (wf_decision_ids _ Hreach) Hin).
    + rewrite (postUndo_nothing _ E). cbn [snd].
      apply getLastDecision_none in E. now rewrite E.
  - rewrite postUndo_notfound_iff.
    assert (Hlen : List.length (review_decisions (snd (postUndo [] db)))
                   = Nat.pred (List.length (review_decisions db))).
    { destruct (getLastDecision db) as [d|] eqn:E.
      - rewrite (postUndo_success _ _ E). cbn [snd].
        destruct (getLastDecision_latest _ _ E) as [Hin _].
        apply (delete_one _ _ (wf_decision_ids _ Hreach) Hin).
      - rewrite (postUndo_nothing _ E). cbn [snd].
        apply getLastDecision_none in E. now rewrite E. }
    split.
    + intros E. rewrite E in Hlen. simpl in Hlen. lia.
    + intros H. destruct (review_decisions (snd (postUndo [] db))); [reflexivity|].
      simpl in Hlen. lia.
  - intros H. apply postUndo_notfound_iff, getLastDecision_none in H.
    now rewrite (postUndo_nothing _ H).
  - intros Htwo.
    destruct (getLastDecision db) as [d1|] eqn:E1.
    2:{ apply getLastDecision_none in E1. rewrite E1 in Htwo. simpl in Htwo. lia. }
    destruct (getLastDecision_latest _ _ E1) as [Hin1 Hmax1].
    rewrite (postUndo_success _ _ E1). cbn [fst snd].
    set (once := markAsUnreviewed (deleteDecision db (d_id d1)) (email_candidate_id d1)).
    assert (Honce : review_decisions once
                    = filter (fun d => negb (d_id d =? d_id d1)) (review_decisions db))
      by reflexivity.
    assert (Hlen : List.length (review_decisions once)
                   = Nat.pred (List.length (review_decisions db))).
    { rewrite Honce. apply (delete_one _ _ (wf_decision_ids _ Hreach) Hin1). }
    destruct (getLastDecision once) as [d2|] eqn:E2.
    2:{ apply getLastDecision_none in E2. rewrite E2 in Hlen. simpl in Hlen. lia. }
    destruct (getLastDecision_latest _ _ E2) as [Hin2 Hmax2].
    rewrite (postUndo_success _ _ E2). cbn [fst snd].
    rewrite Honce in Hin2. apply filter_In in Hin2 as [Hin2 Hne].
    apply negb_true_iff, Z.eqb_neq in Hne.
    exists d1, d2. repeat split; try assumption; try reflexivity.
    + intros d Hd. rewrite Forall_forall in Hmax1. now apply Hmax1.
    + intros d Hd Hdne. rewrite Forall_forall in Hmax2. apply Hmax2.
      rewrite Honce. apply filter_In. split; [exact Hd|].
      now apply negb_true_iff, Z.eqb_neq.
Qed.

Lemma undo_empty_log_witness :
  postUndo [] oneCandidate = (NotFound, oneCandidate) /\
  fst (postUndo [] (snd (postUndo [] oneRejected))) = NotFound.
Proof.
  split.
  - apply (undo_empty_log oneCandidate).
    + apply reachable_run. constructor.
    + reflexivity.
  - apply (undo_empty_log oneRejected).
    + apply reachable_run. constructor.
    + simpl. lia.
Defined.

Lemma count_snoc {A} (f : A -> bool) l x :
  count (filter f (l ++ [x])) = count (filter f l) + (if f x then 1 else 0).
Proof.
  unfold count. rewrite filter_app, length_app. simpl.
  destruct (f x); simpl; lia.
Qed.

(** C10: the review handler does not look at the reviewed flag.  For a
    candidate that is already reviewed, a further submission succeeds,
    appends one more decision row and leaves the candidates (and reviewed
    = 1) as they are, so that the decision counts grow while the number of
    candidates does not; there are reachable states in which
    confirmedCount + rejectedCount exceeds countTotal. *)
Theorem resubmit_appends_decision db now m verdict note c :
  reachable db ->
  getCandidateByMessageId db m = Some c ->
  reviewed c = 1 ->
  let r := postReview now [] (submit m verdict note) db in
  fst r = ReviewSuccess (countUnreviewed db) /\
  review_decisions (snd r)
  = (review_decisions db ++ [decision_row db now m verdict note c])%list /\
  email_candidates (snd r) = email_candidates db /\
  option_map reviewed (getCandidateByMessageId (snd r) m) = Some 1 /\
  countTotalCandidates (snd r) = countTotalCandidates db /\
  countConfirmedFlights (snd r) + countRejected (snd r)
  = countConfirmedFlights db + countRejected db + 1 /\
  (exists db0, reachable db0 /\
     countTotalCandidates db0 < countConfirmedFlights db0 + countRejected db0).
Proof.
  intros Hreach Hc Hrev. cbn zeta.
  destruct (found_in _ _ _ Hc) as [Hin Hmc].
  assert (Hm : m <> "").
  { apply reachable_reviewed_have_id in Hreach. unfold reviewed_have_id in Hreach.
    rewrite Forall_forall in Hreach. rewrite <- Hmc. now apply Hreach. }
  apply reachable_wf in Hreach.
  rewrite (postReview_success db now m verdict note c Hm Hc). cbn [fst snd].
  assert (Hcands : email_candidates (reviewed_state db now m verdict note c)
                   = email_candidates db).
  { rewrite reviewed_state_candidates, <- Hrev.
    apply updateReviewed_same; [exact (wf_ids _ Hreach)|exact Hin]. }
  split; [|split; [|split; [|split; [|split; [|split]]]]].
  - unfold countUnreviewed. now rewrite Hcands.
  - apply reviewed_state_decisions.
  - exact Hcands.
  - unfold getCandidateByMessageId. rewrite Hcands.
    unfold getCandidateByMessageId in Hc. rewrite Hc. cbn [option_map]. now rewrite Hrev.
  - unfold countTotalCandidates. now rewrite Hcands.
  - unfold countConfirmedFlights, countRejected.
    rewrite reviewed_state_decisions, !count_snoc.
    cbn [decision_row Database.is_flight_confirmation]. destruct verdict; simpl; lia.
  - exists (reviewedTwice Samples.msg1). split.
    + apply reachable_run. constructor.
    + reflexivity.
Qed.

Lemma resubmit_appends_decision_witness :
  fst (postReview 200 [] (submit "msg1" true None) oneRejected) = ReviewSuccess 0 /\
  List.length (review_decisions
                 (snd (postReview 200 [] (submit "msg1" true None) oneRejected))) = 2%nat.
Proof.
  pose proof (resubmit_appends_decision oneRejected 200 "msg1" true None
                (mkEmailCandidate 1 "msg1" "uid1" "United Flight Confirmation"
                   "noreply@united.com" "2024-01-01" "Your flight is confirmed"
                   "<html>Flight details</html>" "Flight details" 85
                   "[Known airline sender]" 100 1)) as H.
  cbn zeta in H.
  destruct H as (H1 & H2 & _).
  - apply reachable_run. constructor.
  - reflexivity.
  - reflexivity.
  - split; [exact H1|]. rewrite H2. reflexivity.
Defined.

End ReviewClaims.

(* ================================================================== *)
(** * The queries over the candidates *)

Section Queries.
Import JsString Database Storage Routes Spec Samples.

Lemma scoreDateOrder_before a b : byScoreThenDate a b = true -> scoreDateOrder a b.
Proof.
  unfold byScoreThenDate, scoreDateOrder, Sql.text_geb. intros H.
  apply orb_true_iff in H as [H|H].
  - left. now apply Z.ltb_lt.
  - right. apply andb_true_iff in H as [H1 H2]. split; [now apply Z.eqb_eq|exact H2].
Qed.

Lemma scoreDateOrder_total a b : byScoreThenDate a b = false -> scoreDateOrder b a.
Proof.
  unfold byScoreThenDate, scoreDateOrder, Sql.text_geb. intros H.
  apply orb_false_iff in H as [H1 H2]. apply Z.ltb_ge in H1.
  destruct (Z.eq_dec (confidence_score a) (confidence_score b)) as [E|E].
  - right. split; [now symmetry|].
    rewrite (proj2 (Z.eqb_eq _ _) E) in H2. simpl in H2.
    now apply string_leb_false.
  - left. lia.
Qed.

Lemma scoreDateOrder_trans a b c :
  scoreDateOrder a b -> scoreDateOrder b c -> scoreDateOrder a c.
Proof.
  unfold scoreDateOrder. intros [H1|[H1 H1']] [H2|[H2 H2']]; try (left; lia).
  right. split; [congruence|]. eapply string_leb_trans; eassumption.
Qed.


(** C7, as stated, fails for a negative limit, which SQLite reads as no
    limit: the two unreviewed rows come back for limit -1.  And for a
    limit that no 64-bit integer holds, or that is no integer, the call
    returns nothing at all: the statement fails with a datatype
    mismatch. *)
Lemma unreviewed_limit_counterexample :
  option_map (map message_id) (getUnreviewedCandidates twoCandidates (Int (-1)))
  = Some ["msg2"; "msg1"] /\
  ~ (count ["msg2"; "msg1"] <= -1) /\
  getUnreviewedCandidates twoCandidates (Int (-10000000000000000000)) = None /\
  getUnreviewedCandidates twoCandidates NonInteger = None.
Proof.
  split; [reflexivity|]. split; [|split; reflexivity].
  intros H. vm_compute in H. now apply H.
Qed.

Lemma bindLimit_accepts n :
  - 2 ^ 63 < n < 2 ^ 63 -> Sql.bindLimit (Int n) = Some n.
Proof.
  intros [H1 H2]. unfold Sql.bindLimit.
  apply Z.ltb_lt in H1, H2. now rewrite H1, H2.
Qed.

Lemma bindLimit_rejects n :
  n <= - 2 ^ 63 \/ 2 ^ 63 <= n -> Sql.bindLimit (Int n) = None.
Proof.
  intros H. unfold Sql.bindLimit.
  destruct (- 2 ^ 63 <? n) eqn:E1; [|reflexivity].
  destruct (n <? 2 ^ 63) eqn:E2; [|reflexivity].
  apply Z.ltb_lt in E1, E2. lia.
Qed.

(** C7, amended: for a limit that is an integer strictly between -2^63
    and 2^63, getUnreviewedCandidates(limit) returns stored rows with
    reviewed = 0, sorted by confidence score descending and then by
    msg_date descending (in the order of TEXT values), as a prefix of the
    sorted list of all unreviewed rows: min(limit, countUnreviewed) rows
    for a limit >= 0, and all of them for a negative limit; two calls in a
    row return the same rows in the same order and leave the store as it
    is.  For any other limit the call throws. *)
Theorem unreviewed_batch_ordered db limit :
  let all := Sql.orderBy byScoreThenDate (filter isUnreviewed (email_candidates db)) in
  Permutation all (filter isUnreviewed (email_candidates db)) /\
  StronglySorted scoreDateOrder all /\
  (forall n, limit = Int n -> - 2 ^ 63 < n < 2 ^ 63 ->
     exists rows,
       getUnreviewedCandidates db limit = Some rows /\
       Forall (fun c => In c (email_candidates db) /\ reviewed c = 0) rows /\
       StronglySorted scoreDateOrder rows /\
       (0 <= n ->
        rows = firstn (Z.to_nat n) all /\
        count rows <= n /\ count rows = Z.min n (countUnreviewed db)) /\
       (n < 0 -> rows = all) /\
       (r1 <- attempt (fun db => getUnreviewedCandidates db limit) ;;
        r2 <- attempt (fun db => getUnreviewedCandidates db limit) ;;
        ret (r1, r2))%stmt [] db = Returned (rows, rows) db []) /\
  ((limit = NonInteger \/ exists n, limit = Int n /\ (n <= - 2 ^ 63 \/ 2 ^ 63 <= n)) ->
   getUnreviewedCandidates db limit = None).
Proof.
  cbn zeta.
  assert (Hsorted : StronglySorted scoreDateOrder
            (Sql.orderBy byScoreThenDate (filter isUnreviewed (email_candidates db)))).
  { apply orderBy_sorted.
    - apply scoreDateOrder_before.
    - apply scoreDateOrder_total.
    - apply scoreDateOrder_trans. }
  split; [apply Permutation_sym, orderBy_perm|]. split; [exact Hsorted|]. split.
  - intros n -> Hn. unfold getUnreviewedCandidates.
    rewrite (bindLimit_accepts n Hn). eexists. split; [reflexivity|].
    split; [|split; [|split; [|split]]].
    + rewrite Forall_forall. intros c Hc.
      apply limit_In, orderBy_In, filter_In in Hc as [Hc Hr].
      split; [exact Hc|]. now apply Z.eqb_eq.
    + now apply limit_sorted.
    + intros Hl. split; [|split].
      * unfold Sql.limit. destruct (n <? 0) eqn:E; [lia|reflexivity].
      * unfold count. now apply limit_length.
      * unfold Sql.limit, count, countUnreviewed, count.
        destruct (n <? 0) eqn:E; [lia|].
        rewrite length_firstn, orderBy_length. lia.
    + intros Hl. now apply limit_negative.
    + reflexivity.
  - intros [->|(n & -> & Hn)]; unfold getUnreviewedCandidates.
    + reflexivity.
    + now rewrite (bindLimit_rejects n Hn).
Qed.

Lemma unreviewed_batch_ordered_witness :
  exists rows, getUnreviewedCandidates twoCandidates (Int 1) = Some rows /\ count rows <= 1.
Proof.
  destruct (unreviewed_batch_ordered twoCandidates (Int 1)) as (_ & _ & H & _).
  destruct (H 1 eq_refl) as (rows & E & _ & _ & Hn & _).
  - split; reflexivity.
  - exists rows. split; [exact E|]. apply Hn. discriminate.
Defined.



Lemma length_append (s t : string) :
  String.length (s ++ t) = (String.length s + String.length t)%nat.
Proof. induction s as [|c s IH]; cbn [append String.length]; [reflexivity|now rewrite IH]. Qed.

Lemma pattern_length text :
  Z.of_nat (String.length ("%" ++ text ++ "%")) = Z.of_nat (String.length text) + 2.
Proof.
  cbn [append String.length]. rewrite length_append. cbn [String.length]. lia.
Qed.

Lemma short_pattern text :
  shortQuery text = true -> Sql.patternTooComplex ("%" ++ text ++ "%") = false.
Proof.
  unfold shortQuery, Sql.patternTooComplex. intros H. apply Z.leb_le in H.
  apply Z.ltb_ge. rewrite pattern_length. exact H.
Qed.




End Queries.

(* ================================================================== *)
(** * Further properties of the classifier *)

Section ClassifierMore.
Import JsString Classifier Spec Spec2 Samples.

Lemma includes_prefix_app s t : String.prefix s (s ++ t) = true.
Proof.
  induction s as [|c s IH]; simpl.
  - destruct t; reflexivity.
  - destruct (ascii_dec c c); [exact IH|congruence].
Qed.

Lemma includes_app_r s t needle :
  includes t needle = true -> includes (s ++ t) needle = true.
Proof.
  intros H. induction s as [|c s IH]; simpl.
  - exact H.
  - rewrite IH. apply orb_true_r.
Qed.

Lemma includes_middle pre d post : includes (pre ++ d ++ post) d = true.
Proof.
  apply includes_app_r. destruct d as [|c d]; simpl.
  - destruct post; reflexivity.
  - destruct (ascii_dec c c); [|congruence].
    rewrite includes_prefix_app. reflexivity.
Qed.

Lemma asciiLowerCase_app s t :
  asciiLowerCase (s ++ t) = (asciiLowerCase s ++ asciiLowerCase t)%string.
Proof. induction s as [|c s IH]; simpl; [reflexivity|now rewrite IH]. Qed.

Lemma knownDomains_ascii d : In d knownDomains -> isAsciiText d = true.
Proof.
  unfold knownDomains, KNOWN_AIRLINE_SENDERS, KNOWN_OTA_SENDERS. simpl.
  intros H. repeat (destruct H as [<-|H]; [reflexivity|]). contradiction.
Qed.

Lemma existsb_some {A} (f : A -> bool) l x : In x l -> f x = true -> some f l = true.
Proof. intros Hin Hf. apply existsb_exists. eauto. Qed.

Lemma asciiLowerCase_lowersInPlace : lowersInPlace asciiLowerCase.
Proof.
  intros pre s post _. exists (asciiLowerCase pre), (asciiLowerCase post).
  now rewrite !asciiLowerCase_app.
Qed.

Lemma lowerChar_ascii c :
  (N_of_ascii (lowerChar c) <? 128)%N = (N_of_ascii c <? 128)%N.
Proof.
  destruct c as [[] [] [] [] [] [] [] []]; reflexivity.
Qed.

Lemma isAsciiText_lower s : isAsciiText (asciiLowerCase s) = isAsciiText s.
Proof.
  induction s as [|c s IH]; cbn [asciiLowerCase isAsciiText]; [reflexivity|].
  now rewrite lowerChar_ascii, IH.
Qed.

(** The sender rule is a substring test: an address that contains a
    known domain anywhere, in any case of its ASCII letters, is a known
    sender.  Of the built-in toLowerCase the proof uses only that it
    lowers a run of ASCII characters in place. *)
Theorem known_sender_anywhere toLowerCase pre d d' post :
  lowersInPlace toLowerCase ->
  In d knownDomains ->
  asciiLowerCase d' = d ->
  isKnownSender toLowerCase (pre ++ d' ++ post) = true.
Proof.
  intros Hlow Hd Hd'. unfold isKnownSender. cbn zeta.
  assert (Hascii : isAsciiText d' = true).
  { rewrite <- isAsciiText_lower, Hd'. now apply knownDomains_ascii. }
  destruct (Hlow pre d' post Hascii) as (pre' & post' & ->). rewrite Hd'.
  unfold knownDomains in Hd. apply in_app_or in Hd as [Hd|Hd].
  - rewrite (existsb_some _ _ d Hd); [reflexivity|apply includes_middle].
  - rewrite (existsb_some _ _ d Hd) by apply includes_middle. apply orb_true_r.
Qed.

Lemma known_sender_anywhere_witness :
  isKnownSender asciiLowerCase "billing@AA.COMpany.example" = true.
Proof.
  apply (known_sender_anywhere asciiLowerCase
           "billing@" "aa.com" "AA.COM" "pany.example").
  - exact asciiLowerCase_lowersInPlace.
  - right. right. left. reflexivity.
  - reflexivity.
Defined.

Lemma prefix_app_includes a b s :
  String.prefix (a ++ b) s = true -> includes s b = true.
Proof.
  revert s. induction a as [|c a IH]; intros s H.
  - change ("" ++ b)%string with b in H. destruct s; cbn [includes]; now rewrite H.
  - destruct s as [|c' s]; simpl in H; [discriminate|].
    destruct (ascii_dec c c'); [|discriminate].
    cbn [includes]. rewrite (IH s H). apply orb_true_r.
Qed.

Lemma includes_longer_needle a b s :
  includes s (a ++ b) = true -> includes s b = true.
Proof.
  induction s as [|c s IH]; cbn [includes]; intros H.
  - apply orb_true_iff in H as [H|H]; [|discriminate].
    apply prefix_app_includes in H. exact H.
  - apply orb_true_iff in H as [H|H].
    + apply prefix_app_includes in H. exact H.
    + rewrite (IH H). apply orb_true_r.
Qed.

(** The second test of hasFlightReservationSchema adds nothing: the
    schema rule fires exactly when the HTML contains the text
    FlightReservation, with or without the schema.org/ prefix. *)
Theorem schema_rule_is_one_substring html :
  hasFlightReservationSchema html = includes html "FlightReservation".
Proof.
  unfold hasFlightReservationSchema.
  destruct (includes html "FlightReservation") eqn:E; [reflexivity|].
  destruct (includes html "schema.org/FlightReservation") eqn:E'; [|reflexivity].
  apply (includes_longer_needle "schema.org/" "FlightReservation") in E'. congruence.
Qed.

Lemma rule_score b w r acc :
  score (rule b w r acc) = score acc + (if b then w else 0).
Proof. destruct b; simpl; lia. Qed.

Lemma rule_reasons b w r acc :
  List.length (reasons (rule b w r acc)) = (List.length (reasons acc) + fired b)%nat.
Proof. destruct b; simpl; [rewrite length_app; reflexivity|lia]. Qed.

(** The score is the sum of the weights of the rules that fire, there is
    one reason per rule that fires, and the score is 0 exactly when there
    is no reason. *)
Theorem score_is_weighted_sum toLowerCase e :
  let r := calculateConfidenceScore toLowerCase e in
  score r = (if ruleSchema e then 50 else 0)
            + (if ruleSender toLowerCase e then 20 else 0)
            + (if ruleConfirmation toLowerCase e then 15 else 0)
            + (if ruleFlight toLowerCase e then 10 else 0)
            + (if ruleMarkers e then 10 else 0) /\
  List.length (reasons r)
  = (fired (ruleSchema e) + fired (ruleSender toLowerCase e)
     + fired (ruleConfirmation toLowerCase e)
     + fired (ruleFlight toLowerCase e) + fired (ruleMarkers e))%nat /\
  (score r = 0 <-> reasons r = []).
Proof.
  cbn zeta. unfold calculateConfidenceScore, ruleSchema, ruleSender, ruleConfirmation,
    ruleFlight, ruleMarkers.
  destruct (hasFlightReservationSchema _), (isKnownSender _ _),
    (hasConfirmationKeywords _ _), (hasFlightKeywords _ _), (2 <=? _);
    cbn [rule score reasons fired app List.length];
    (split; [reflexivity|split; [reflexivity|split; intros H; discriminate || reflexivity]]).
Qed.

(** Which emails pass the threshold: those with the schema markup, those
    from a known sender with at least one more rule, and those with both
    subject rules and the flight markers. *)
Theorem candidate_characterisation toLowerCase e :
  isCandidate (isCandidateForReview toLowerCase e)
  = ruleSchema e
    || (ruleSender toLowerCase e
        && (ruleConfirmation toLowerCase e || ruleFlight toLowerCase e
            || ruleMarkers e))
    || (ruleConfirmation toLowerCase e && ruleFlight toLowerCase e && ruleMarkers e).
Proof.
  unfold isCandidateForReview, CONFIDENCE_THRESHOLD. cbn [isCandidate].
  destruct (score_is_weighted_sum toLowerCase e) as [-> _].
  destruct (ruleSchema e), (ruleSender toLowerCase e), (ruleConfirmation toLowerCase e),
    (ruleFlight toLowerCase e), (ruleMarkers e); reflexivity.
Qed.

Lemma matchHere_needs_upper cls lo hi r prev s :
  (forall c, cls c = true -> isUpper c = true) ->
  noUpper s = true ->
  matchHere (WordB :: Rep cls (S lo) hi :: r) prev s = false.
Proof.
  intros Hcls Hs. cbn [matchHere]. apply andb_false_iff. right.
  destruct hi as [|hi]; [reflexivity|].
  destruct s as [|c s]; [reflexivity|].
  cbn [noUpper] in Hs. apply andb_true_iff in Hs as [Hc _].
  apply negb_true_iff in Hc.
  destruct (cls c) eqn:E; [|reflexivity].
  apply Hcls in E. congruence.
Qed.

Lemma searchFrom_needs_upper cls lo hi r prev s :
  (forall c, cls c = true -> isUpper c = true) ->
  noUpper s = true ->
  searchFrom (WordB :: Rep cls (S lo) hi :: r) prev s = false.
Proof.
  intros Hcls. revert prev. induction s as [|c s IH]; intros prev Hs.
  - cbn [searchFrom]. now rewrite (matchHere_needs_upper cls lo hi r prev "" Hcls).
  - cbn [searchFrom]. rewrite (matchHere_needs_upper cls lo hi r prev _ Hcls Hs).
    cbn [noUpper] in Hs. apply andb_true_iff in Hs as [_ Hs]. now apply IH.
Qed.

(** A plain text without upper-case letters has neither a flight number
    nor an airport code, so the flight-marker rule does not fire on it,
    whatever else it contains. *)
Theorem markers_need_upper_case text :
  noUpper text = true ->
  (detectFlightMarkers text = [] \/ detectFlightMarkers text = ["confirmation code"]) /\
  forall e, plain_text e = Some text -> ruleMarkers e = false.
Proof.
  intros H.
  assert (Hm : detectFlightMarkers text = []
               \/ detectFlightMarkers text = ["confirmation code"]).
  { unfold detectFlightMarkers, test, reFlightNumber, reAirportCode.
    rewrite (searchFrom_needs_upper isUpper 1 2 _ None text (fun c E => E) H).
    rewrite (searchFrom_needs_upper isUpper 2 3 _ None text (fun c E => E) H).
    destruct (searchFrom reConfirmationCode None text); [now right|now left]. }
  split; [exact Hm|].
  intros e He. unfold ruleMarkers. rewrite He. destruct Hm as [-> | ->]; reflexivity.
Qed.

Lemma markers_need_upper_case_witness :
  detectFlightMarkers "ref 123456, gate b12, from jfk" = ["confirmation code"].
Proof.
  destruct (markers_need_upper_case "ref 123456, gate b12, from jfk") as [[H|H] _].
  - reflexivity.
  - vm_compute in H. discriminate H.
  - exact H.
Defined.

End ClassifierMore.

(* ================================================================== *)
(** * The writes behind the requests *)

Section Writes.
Import Database Storage Routes Spec Spec2 Samples.

Lemma writes_trans a b c : writes a b -> writes b c -> writes a c.
Proof.
  intros Hab Hbc. induction Hbc as [|b c d _ IH Hw]; [exact Hab|].
  eapply writes_step; [exact (IH Hab)|exact Hw].
Qed.

Lemma writes_one a b : write a b -> writes a b.
Proof. intros H. eapply writes_step; [apply writes_refl|exact H]. Qed.

(** Where an undo can leave the store, whatever statement throws. *)
Lemma postUndo_final fs db :
  snd (postUndo fs db) = db \/
  exists d, getLastDecision db = Some d /\
    (snd (postUndo fs db) = deleteDecision db (d_id d) \/
     snd (postUndo fs db)
     = markAsUnreviewed (deleteDecision db (d_id d)) (email_candidate_id d)).
Proof.
  unfold postUndo, handle, undoBody, bind, query, exec, run, ret.
  destruct (getLastDecision db) as [d|] eqn:E.
  - destruct fs as [|[|] [|[|] [|[|] fs]]]; cbn [snd];
      try (left; reflexivity);
      right; exists d; (split; [reflexivity|]);
      first [left; reflexivity|right; reflexivity].
  - left. destruct fs as [|[|] fs]; reflexivity.
Qed.

Lemma insertEach_writes clock i cs db : writes db (insertEach clock i cs db).
Proof.
  revert i db.
  induction cs as [|c cs IH]; intros i db; simpl; [apply writes_refl|].
  eapply writes_trans; [apply writes_one, (w_candidate (clock i) db c)|apply IH].
Qed.

Lemma insertCandidates_writes clock cs db :
  writes db (snd (insertCandidates db clock cs)).
Proof. unfold insertCandidates. cbn [snd]. apply insertEach_writes. Qed.

Lemma updateReviewed_self v c : updateReviewed v (id c) c = set_reviewed v c.
Proof. unfold updateReviewed. now rewrite Z.eqb_refl. Qed.

(** Every request is a sequence of single writes. *)
Lemma step_writes r db : writes db (step r db).
Proof.
  destruct r as [now cs|now fs decision|fs]; cbn [step].
  - apply insertCandidates_writes.
  - destruct (postReview_final now fs decision db) as [->|(m & v & c & Hm & Hc & Hfin)];
      [apply writes_refl|].
    cbn zeta in Hfin.
    set (db1 := insertReviewDecision db now (id c) m v (Routes.notes decision)) in *.
    set (db2 := markAsReviewed db1 (id c)) in *.
    assert (H1 : writes db db1) by (apply writes_one, w_decision; assumption).
    assert (H2 : writes db db2).
    { eapply writes_step; [exact H1|]. apply (w_reviewed db1 m c Hm). exact Hc. }
    destruct Hfin as [->|[->| ->]]; [exact H1|exact H2|].
    eapply writes_step; [exact H2|].
    assert (Hc2 : getCandidateByMessageId db2 m = Some (set_reviewed 1 c)).
    { unfold getCandidateByMessageId, db2, db1.
      cbn [markAsReviewed set_candidates insertReviewDecision email_candidates].
      rewrite find_updateReviewed. unfold getCandidateByMessageId in Hc. rewrite Hc.
      cbn [option_map]. now rewrite updateReviewed_self. }
    exact (w_confirmed db2 now m (set_reviewed 1 c) Hm Hc2).
  - destruct (postUndo_final fs db) as [->|(d & Hd & [->| ->])]; [apply writes_refl| |].
    + apply writes_one, w_delete. now apply getLastDecision_latest.
    + eapply writes_step; [|apply w_unreviewed].
      apply writes_one, w_delete. now apply getLastDecision_latest.
Qed.

Lemma run_requests_writes rs db : writes db (run_requests rs db).
Proof.
  unfold run_requests. revert db. induction rs as [|r rs IH]; intros db; simpl.
  - apply writes_refl.
  - eapply writes_trans; [apply step_writes|apply IH].
Qed.

Lemma reachable_writes db : reachable db -> writes initDatabase db.
Proof.
  induction 1 as [|db r _ IH]; [apply writes_refl|].
  eapply writes_trans; [exact IH|apply step_writes].
Qed.

End Writes.

(* ================================================================== *)
(** * What the requests keep *)

Section Kept.
Import Database Storage Routes Spec Spec2 Samples.

Lemma content_updateReviewed v cid l :
  map content (map (updateReviewed v cid) l) = map content l.
Proof.
  rewrite map_map. apply map_ext. intros c. unfold updateReviewed.
  destruct (id c =? cid); reflexivity.
Qed.

Lemma write_candidates db db' :
  write db db' ->
  exists extra,
    map content (email_candidates db')
    = (map content (email_candidates db) ++ extra)%list.
Proof.
  intros H. destruct H.
  - destruct (insertCandidate_rows now db c) as [extra ->].
    exists (map content extra). apply map_app.
  - exists []. now rewrite app_nil_r.
  - exists []. rewrite app_nil_r. apply content_updateReviewed.
  - exists []. rewrite app_nil_r. unfold insertConfirmedFlight.
    destruct (existsb _ _); reflexivity.
  - exists []. now rewrite app_nil_r.
  - exists []. rewrite app_nil_r. apply content_updateReviewed.
Qed.

Lemma write_confirmed db db' :
  write db db' ->
  exists extra, confirmed_flights db' = (confirmed_flights db ++ extra)%list.
Proof.
  intros H. destruct H; try (exists []; now rewrite app_nil_r).
  - unfold insertCandidate. destruct (existsb _ _);
      exists []; now rewrite app_nil_r.
  - unfold insertConfirmedFlight. destruct (existsb _ _).
    + exists []. now rewrite app_nil_r.
    + eexists. reflexivity.
Qed.

(** No sequence of requests deletes a stored candidate, reorders the
    candidates or changes any column of one other than the reviewed flag:
    the table only grows at its end. *)
Theorem candidates_append_only rs db :
  exists extra,
    map content (email_candidates (run_requests rs db))
    = (map content (email_candidates db) ++ extra)%list.
Proof.
  induction (run_requests_writes rs db) as [db|db db1 db2 _ [e1 IH] Hw].
  - exists []. now rewrite app_nil_r.
  - destruct (write_candidates _ _ Hw) as [e2 ->]. rewrite IH.
    exists (e1 ++ e2)%list. now rewrite app_assoc.
Qed.

(** No sequence of requests removes or alters a row of confirmed_flights:
    neither undo nor a later rejection takes a confirmed flight back. *)
Theorem confirmed_flights_append_only rs db :
  exists extra,
    confirmed_flights (run_requests rs db) = (confirmed_flights db ++ extra)%list.
Proof.
  induction (run_requests_writes rs db) as [db|db db1 db2 _ [e1 IH] Hw].
  - exists []. now rewrite app_nil_r.
  - destruct (write_confirmed _ _ Hw) as [e2 ->]. rewrite IH.
    exists (e1 ++ e2)%list. now rewrite app_assoc.
Qed.

Lemma write_keeps_candidate db db' c :
  write db db' -> In c (email_candidates db) ->
  exists c', In c' (email_candidates db') /\ content c' = content c.
Proof.
  intros Hw Hc. destruct (write_candidates _ _ Hw) as [extra E].
  assert (Hin : In (content c) (map content (email_candidates db'))).
  { rewrite E. apply in_or_app. left. now apply in_map. }
  apply in_map_iff in Hin as [c' [E' Hc']]. eauto.
Qed.

Lemma content_columns c c' :
  content c' = content c ->
  id c' = id c /\ message_id c' = message_id c /\
  gmail_uid c' = gmail_uid c /\ subject c' = subject c.
Proof.
  intros E.
  change (id (content c') = id (content c) /\
          message_id (content c') = message_id (content c) /\
          gmail_uid (content c') = gmail_uid (content c) /\
          subject (content c') = subject (content c)).
  now rewrite E.
Qed.

Lemma decision_ok_write db db' d :
  write db db' -> decision_ok db d -> decision_ok db' d.
Proof.
  intros Hw (Hv & Hm & c & Hc & Hid & Hmid).
  destruct (write_keeps_candidate _ _ c Hw Hc) as (c' & Hc' & E).
  apply content_columns in E as (E1 & E2 & _).
  split; [exact Hv|split; [exact Hm|]]. exists c'. repeat split; congruence.
Qed.

Lemma confirmed_ok_write db db' f :
  write db db' -> confirmed_ok db f -> confirmed_ok db' f.
Proof.
  intros Hw (H1 & H2 & H3 & H4 & c & Hc & Hm & Hu & Hs).
  destruct (write_keeps_candidate _ _ c Hw Hc) as (c' & Hc' & E).
  apply content_columns in E as (E1 & E2 & E3 & E4).
  repeat (split; [assumption|]). exists c'. repeat split; congruence.
Qed.

Lemma existsb_confirmed_id l m :
  existsb (fun f => (f_message_id f =? m)%string) l = false ->
  ~ In m (map f_message_id l).
Proof.
  intros H Hin. apply in_map_iff in Hin as [f [Hf Hin]].
  assert (existsb (fun f => (f_message_id f =? m)%string) l = true) as E.
  { apply existsb_exists. exists f. split; [exact Hin|]. now apply String.eqb_eq. }
  congruence.
Qed.

Lemma linked_write db db' : write db db' -> linked db -> linked db'.
Proof.
  intros Hw [Hd Hf Hn].
  assert (Hd' : Forall (decision_ok db') (review_decisions db)).
  { eapply Forall_impl; [|exact Hd]. intros d. now apply decision_ok_write. }
  assert (Hf' : Forall (confirmed_ok db') (confirmed_flights db)).
  { eapply Forall_impl; [|exact Hf]. intros f. now apply confirmed_ok_write. }
  destruct Hw.
  - unfold insertCandidate in *. destruct (existsb _ _); split; assumption.
  - split; [|exact Hf'|exact Hn].
    cbn [insertReviewDecision review_decisions]. apply Forall_app. split; [exact Hd'|].
    constructor; [|constructor].
    destruct (found_in _ _ _ H0) as [Hin Hmc].
    split; [destruct verdict; cbn; tauto|]. split; [exact H|].
    exists c. repeat split; assumption.
  - split; assumption.
  - unfold insertConfirmedFlight in *.
    destruct (existsb _ (confirmed_flights db)) eqn:E; [split; assumption|].
    split; [exact Hd'| |].
    + cbn [confirmed_flights]. apply Forall_app. split; [exact Hf'|].
      constructor; [|constructor].
      destruct (found_in _ _ _ H0) as [Hin Hmc].
      repeat (split; [reflexivity|]). exists c. repeat split; assumption.
    + cbn [confirmed_flights]. rewrite map_app. cbn [map f_message_id].
      apply NoDup_Add with (a := m) (l := map f_message_id (confirmed_flights db)).
      * rewrite <- (app_nil_r (map f_message_id (confirmed_flights db))) at 1.
        apply Add_app.
      * split; [exact Hn|]. now apply existsb_confirmed_id.
  - split; [|exact Hf'|exact Hn].
    cbn [deleteDecision set_decisions review_decisions].
    rewrite Forall_forall in *. intros d' Hd0. apply filter_In in Hd0 as [Hd0 _]. auto.
  - split; assumption.
Qed.

Lemma linked_init : linked initDatabase.
Proof. split; constructor. Qed.

Lemma linked_writes db db' : writes db db' -> linked db -> linked db'.
Proof.
  induction 1 as [|db db1 db2 _ IH Hw]; intros H; [exact H|].
  apply (linked_write _ _ Hw), IH, H.
Qed.

Lemma reachable_linked db : reachable db -> linked db.
Proof.
  intros H. apply (linked_writes initDatabase).
  - now apply reachable_writes.
  - apply linked_init.
Qed.

End Kept.

(* ================================================================== *)
(** * Further properties of the store and of the review workflow *)

Section Workflow.
Import Database Storage Routes Spec Spec2 Samples.

Lemma count_verdict_split l :
  Forall (fun d => Database.is_flight_confirmation d = 0
                   \/ Database.is_flight_confirmation d = 1) l ->
  count (filter (fun d => Database.is_flight_confirmation d =? 1) l)
  + count (filter (fun d => Database.is_flight_confirmation d =? 0) l) = count l.
Proof.
  unfold count. induction 1 as [|d l Hd Hl IH]; [reflexivity|].
  cbn [filter]. destruct Hd as [E|E]; rewrite E; cbn [Z.eqb Pos.eqb List.length];
    rewrite ?Nat2Z.inj_succ; lia.
Qed.

(** In every reachable state, each decision row has a verdict of 0 or 1,
    a non-empty message identifier, and names a stored candidate by both
    its rowid and its message identifier. *)
Theorem decisions_name_stored_candidates db :
  reachable db -> Forall (decision_ok db) (review_decisions db).
Proof. intros H. exact (linked_decisions _ (reachable_linked _ H)). Qed.

Lemma decisions_name_stored_candidates_witness :
  Forall (decision_ok twoReviewed) (review_decisions twoReviewed).
Proof.
  apply (decisions_name_stored_candidates twoReviewed).
  apply reachable_run. constructor.
Defined.

(** In every reachable state the two decision counts of the statistics
    add up to the number of rows of the decision log. *)
Theorem decision_counts_add_up db :
  reachable db ->
  countConfirmedFlights db + countRejected db = count (review_decisions db).
Proof.
  intros H. unfold countConfirmedFlights, countRejected.
  apply count_verdict_split.
  eapply Forall_impl; [|exact (linked_decisions _ (reachable_linked _ H))].
  intros d Hd. exact (proj1 Hd).
Qed.

Lemma decision_counts_add_up_witness :
  countConfirmedFlights twoReviewed + countRejected twoReviewed
  = count (review_decisions twoReviewed).
Proof.
  apply (decision_counts_add_up twoReviewed).
  apply reachable_run. constructor.
Defined.

(** In every reachable state, confirmed_flights has at most one row per
    message identifier; each row copies the identifier, the uid and the
    subject of a stored candidate and is not marked as forwarded; so
    there are never more confirmed flights than candidates. *)
Theorem confirmed_flights_copy_candidates db :
  reachable db ->
  NoDup (map f_message_id (confirmed_flights db)) /\
  Forall (confirmed_ok db) (confirmed_flights db) /\
  count (confirmed_flights db) <= countTotalCandidates db.
Proof.
  intros H. destruct (reachable_linked _ H) as [_ Hf Hn].
  split; [exact Hn|split; [exact Hf|]].
  unfold count, countTotalCandidates, count.
  rewrite <- (length_map f_message_id (confirmed_flights db)).
  rewrite <- (length_map message_id (email_candidates db)).
  apply inj_le, NoDup_incl_length; [exact Hn|].
  intros m Hm. apply in_map_iff in Hm as [f [<- Hin]].
  rewrite Forall_forall in Hf. destruct (Hf f Hin) as (_ & _ & _ & _ & c & Hc & E & _).
  rewrite <- E. now apply in_map.
Qed.

Lemma confirmed_flights_copy_candidates_witness :
  count (confirmed_flights twoReviewed) <= countTotalCandidates twoReviewed.
Proof.
  apply (confirmed_flights_copy_candidates twoReviewed).
  apply reachable_run. constructor.
Defined.

Lemma unique_lookup l c :
  NoDup (map message_id l) -> In c l ->
  find (fun r => (message_id r =? message_id c)%string) l = Some c.
Proof.
  intros Hnd Hin. destruct (find _ l) as [r|] eqn:E.
  - apply find_some in E as [Hr E]. apply String.eqb_eq in E.
    now rewrite (NoDup_map_eq message_id l r c Hnd Hr Hin E).
  - exfalso. apply (find_none _ _ E) in Hin. now rewrite String.eqb_refl in Hin.
Qed.

Lemma count_filter_update (f : EmailCandidate -> bool) v c l :
  NoDup (map id l) -> In c l ->
  count (filter f (map (updateReviewed v (id c)) l))
  = count (filter f l) - (if f c then 1 else 0) + (if f (set_reviewed v c) then 1 else 0).
Proof.
  unfold count. intros Hnd Hin. induction l as [|y l IH]; [contradiction|].
  cbn [map] in Hnd. inversion Hnd as [|? ? Hn Hl]; subst.
  cbn [map filter]. destruct Hin as [->|Hin].
  - rewrite updateReviewed_self.
    replace (map (updateReviewed v (id c)) l) with l.
    + destruct (f c), (f (set_reviewed v c)); cbn [List.length];
        rewrite ?Nat2Z.inj_succ; lia.
    + rewrite <- (map_id l) at 1. apply map_ext_in. intros z Hz.
      unfold updateReviewed. destruct (id z =? id c) eqn:E; [|reflexivity].
      apply Z.eqb_eq in E. exfalso. apply Hn. rewrite <- E. now apply in_map.
  - unfold updateReviewed at 1. destruct (id y =? id c) eqn:E.
    + apply Z.eqb_eq in E. exfalso. apply Hn. rewrite E. now apply in_map.
    + specialize (IH Hl Hin).
      destruct (f y); cbn [List.length]; rewrite ?Nat2Z.inj_succ; lia.
Qed.

(** A review of an unreviewed candidate that no statement fails moves
    exactly that candidate: the answer carries the unreviewed count
    lowered by one, the reviewed count goes up by one, the verdict's
    decision count goes up by one and the other stays, and a positive
    verdict leaves a confirmed flight for the identifier while a negative
    one leaves confirmed_flights alone. *)
Theorem review_moves_one_candidate db now m verdict note c :
  reachable db ->
  m <> "" ->
  getCandidateByMessageId db m = Some c ->
  reviewed c = 0 ->
  let r := postReview now [] (submit m verdict note) db in
  fst r = ReviewSuccess (countUnreviewed db - 1) /\
  countUnreviewed (snd r) = countUnreviewed db - 1 /\
  countReviewed (snd r) = countReviewed db + 1 /\
  countTotalCandidates (snd r) = countTotalCandidates db /\
  countConfirmedFlights (snd r) = countConfirmedFlights db + (if verdict then 1 else 0) /\
  countRejected (snd r) = countRejected db + (if verdict then 0 else 1) /\
  getCandidateByMessageId (snd r) m = Some (set_reviewed 1 c) /\
  (if verdict
   then In m (map f_message_id (confirmed_flights (snd r)))
   else confirmed_flights (snd r) = confirmed_flights db).
Proof.
  intros Hreach Hm Hc Hrev. cbn zeta. apply reachable_wf in Hreach.
  destruct (found_in _ _ _ Hc) as [Hin Hmc].
  rewrite (postReview_success db now m verdict note c Hm Hc). cbn [fst snd].
  set (db' := reviewed_state db now m verdict note c).
  assert (Hcands : email_candidates db' = map (updateReviewed 1 (id c)) (email_candidates db))
    by apply reviewed_state_candidates.
  assert (Hun : countUnreviewed db' = countUnreviewed db - 1).
  { unfold countUnreviewed. rewrite Hcands.
    rewrite (count_filter_update isUnreviewed 1 c _ (wf_ids _ Hreach) Hin).
    unfold isUnreviewed. cbn [reviewed set_reviewed]. rewrite Hrev. cbn. lia. }
  assert (Hre : countReviewed db' = countReviewed db + 1).
  { unfold countReviewed. rewrite Hcands.
    rewrite (count_filter_update isReviewed 1 c _ (wf_ids _ Hreach) Hin).
    unfold isReviewed. cbn [reviewed set_reviewed]. rewrite Hrev. cbn. lia. }
  split; [now rewrite Hun|]. split; [exact Hun|]. split; [exact Hre|].
  split.
  { unfold countTotalCandidates, count. rewrite Hcands. now rewrite length_map. }
  split.
  { unfold countConfirmedFlights. unfold db'. rewrite reviewed_state_decisions, count_snoc.
    cbn [decision_row Database.is_flight_confirmation]. now destruct verdict. }
  split.
  { unfold countRejected. unfold db'. rewrite reviewed_state_decisions, count_snoc.
    cbn [decision_row Database.is_flight_confirmation]. now destruct verdict. }
  split.
  { unfold getCandidateByMessageId. rewrite Hcands, find_updateReviewed.
    unfold getCandidateByMessageId in Hc. rewrite Hc. cbn [option_map].
    now rewrite updateReviewed_self. }
  destruct verdict.
  - pose proof (reviewed_state_confirmed db now m c note) as E.
    apply existsb_exists in E as [f [Hf E]]. apply String.eqb_eq in E.
    rewrite <- E. now apply in_map.
  - reflexivity.
Qed.

Lemma review_moves_one_candidate_witness :
  fst (postReview 200 [] (submit "msg2" false None) twoCandidates) = ReviewSuccess 1.
Proof.
  pose proof (review_moves_one_candidate twoCandidates 200 "msg2" false None
                (mkEmailCandidate 2 "msg2" "uid2" "Delta Flight Itinerary"
                   "noreply@delta.com" "2024-01-02" "Your itinerary"
                   "<html>Itinerary</html>" "Itinerary" 90
                   "[Known airline sender]" 100 0)) as H.
  cbn zeta in H. destruct H as (H & _).
  - apply reachable_run. constructor.
  - discriminate.
  - reflexivity.
  - reflexivity.
  - exact H.
Defined.

(** After a review that no statement fails, the candidate is in no batch
    of unreviewed candidates, whatever the limit and whatever its state
    before: every limit that SQLite accepts gives a batch, and no batch
    has the candidate. *)
Theorem reviewed_candidate_leaves_queue db now m verdict note c limit :
  reachable db ->
  m <> "" ->
  getCandidateByMessageId db m = Some c ->
  let db' := snd (postReview now [] (submit m verdict note) db) in
  (Sql.bindLimit limit <> None ->
   exists rows, getUnreviewedCandidates db' limit = Some rows) /\
  forall rows,
    getUnreviewedCandidates db' limit = Some rows ->
    ~ In m (map message_id rows).
Proof.
  intros Hreach Hm Hc. cbn zeta. split.
  { unfold getUnreviewedCandidates. destruct (Sql.bindLimit limit) as [n|].
    - intros _. eexists. reflexivity.
    - intros H. now contradiction H. }
  intros rows Hrows Hin. apply reachable_wf in Hreach.
  destruct (found_in _ _ _ Hc) as [Hcin Hmc].
  rewrite (postReview_success db now m verdict note c Hm Hc) in Hrows. cbn [snd] in Hrows.
  unfold getUnreviewedCandidates in Hrows.
  destruct (Sql.bindLimit limit) as [n|]; [|discriminate].
  injection Hrows as <-.
  apply in_map_iff in Hin as [y [Hy Hin]].
  apply limit_In, orderBy_In, filter_In in Hin as [Hin Hun].
  rewrite reviewed_state_candidates in Hin.
  apply in_map_iff in Hin as [z [Hz Hzin]].
  assert (z = c).
  { apply (NoDup_map_eq message_id _ z c (wf_message_ids _ Hreach) Hzin Hcin).
    rewrite Hmc, <- Hy, <- Hz. unfold updateReviewed.
    destruct (id z =? id c); reflexivity. }
  subst z. rewrite updateReviewed_self in Hz. subst y.
  unfold isUnreviewed in Hun. cbn in Hun. discriminate.
Qed.

Lemma reviewed_candidate_leaves_queue_witness :
  exists rows,
    getUnreviewedCandidates
      (snd (postReview 200 [] (submit "msg2" false None) twoCandidates))
      (JsString.Int (-1)) = Some rows /\
    ~ In "msg2" (map message_id rows).
Proof.
  destruct (reviewed_candidate_leaves_queue twoCandidates 200 "msg2" false None
           (mkEmailCandidate 2 "msg2" "uid2" "Delta Flight Itinerary"
              "noreply@delta.com" "2024-01-02" "Your itinerary"
              "<html>Itinerary</html>" "Itinerary" 90
              "[Known airline sender]" 100 0) (JsString.Int (-1))) as [H1 H2].
  - apply reachable_run. constructor.
  - discriminate.
  - reflexivity.
  - destruct H1 as [rows Hrows]; [discriminate|].
    exists rows. split; [exact Hrows|exact (H2 rows Hrows)].
Defined.

(** An undo that succeeds names a stored candidate: after it, the lookup
    of the identifier in the answer gives that candidate with reviewed =
    0, the decision log is one row shorter, and countUnreviewed went up by
    one if the candidate was reviewed and stayed otherwise. *)
Theorem undo_reopens_candidate db m :
  reachable db ->
  fst (postUndo [] db) = UndoSuccess m ->
  exists c,
    getCandidateByMessageId db m = Some c /\
    getCandidateByMessageId (snd (postUndo [] db)) m = Some (set_reviewed 0 c) /\
    count (review_decisions (snd (postUndo [] db))) = count (review_decisions db) - 1 /\
    countUnreviewed (snd (postUndo [] db))
    = countUnreviewed db + (if reviewed c =? 0 then 0 else 1).
Proof.
  intros Hreach Hres.
  pose proof (reachable_wf _ Hreach) as Hwf.
  pose proof (reachable_linked _ Hreach) as Hl.
  destruct (getLastDecision db) as [d|] eqn:E.
  2:{ rewrite (postUndo_nothing _ E) in Hres. discriminate. }
  rewrite (postUndo_success _ _ E) in *. cbn [fst snd] in *.
  injection Hres as <-.
  destruct (getLastDecision_latest _ _ E) as [Hd _].
  pose proof (linked_decisions _ Hl) as Hok. rewrite Forall_forall in Hok.
  destruct (Hok d Hd) as (_ & _ & c & Hc & Hid & Hmid).
  exists c. rewrite <- Hid, <- Hmid.
  assert (Hfind : getCandidateByMessageId db (message_id c) = Some c)
    by (apply unique_lookup; [exact (wf_message_ids _ Hwf)|exact Hc]).
  split; [exact Hfind|]. split; [|split].
  - unfold getCandidateByMessageId.
    cbn [markAsUnreviewed deleteDecision set_candidates set_decisions email_candidates].
    rewrite find_updateReviewed. unfold getCandidateByMessageId in Hfind.
    rewrite Hfind. cbn [option_map]. now rewrite updateReviewed_self.
  - cbn [markAsUnreviewed deleteDecision set_candidates set_decisions review_decisions].
    unfold count. rewrite (delete_one _ _ (wf_decision_ids _ Hwf) Hd).
    destruct (review_decisions db); [contradiction|].
    cbn [List.length Nat.pred]. lia.
  - unfold countUnreviewed.
    cbn [markAsUnreviewed deleteDecision set_candidates set_decisions email_candidates].
    rewrite (count_filter_update isUnreviewed 0 c _ (wf_ids _ Hwf) Hc).
    unfold isUnreviewed. cbn [reviewed set_reviewed].
    destruct (reviewed c =? 0); cbn; lia.
Qed.

Lemma undo_reopens_candidate_witness :
  exists c, getCandidateByMessageId twoReviewed "msg2" = Some c /\
            getCandidateByMessageId (snd (postUndo [] twoReviewed)) "msg2"
            = Some (set_reviewed 0 c).
Proof.
  destruct (undo_reopens_candidate twoReviewed "msg2") as (c & H1 & H2 & _).
  - apply reachable_run. constructor.
  - reflexivity.
  - exists c. split; assumption.
Defined.

(** The review handler answers 400 and runs no statement when the body
    has no email_id, an empty one, or no boolean verdict, even while the
    storage is failing; for an identifier that is not stored it answers
    404 and writes nothing. *)
Theorem review_rejections_write_nothing now fs decision db :
  ((email_id decision = None \/ email_id decision = Some ""
    \/ Routes.is_flight_confirmation decision = None) ->
   postReview now fs decision db = (InvalidInput, db)) /\
  (forall m verdict,
     email_id decision = Some m -> m <> "" ->
     Routes.is_flight_confirmation decision = Some verdict ->
     getCandidateByMessageId db m = None ->
     postReview now [] decision db = (NotFound, db) /\
     postReview now (false :: fs) decision db = (NotFound, db) /\
     postReview now (true :: fs) decision db = (StorageFailure, db)).
Proof.
  split.
  - intros H. destruct decision as [[m|] [v|] note]; cbn in H.
    + destruct H as [H|[H|H]]; try discriminate. injection H as ->. reflexivity.
    + destruct (m =? "")%string eqn:E; unfold postReview, handle, reviewBody; cbn;
        reflexivity.
    + reflexivity.
    + reflexivity.
  - intros m verdict He Hm Hv Hc. destruct decision as [eid v note]. cbn in He, Hv.
    subst eid v. run_handler. rewrite (not_empty_eqb _ Hm), Hc. repeat split.
Qed.

Lemma review_rejections_write_nothing_witness :
  postReview 200 [true] (mkReviewDecision (Some "") (Some true) None) oneCandidate
  = (InvalidInput, oneCandidate) /\
  postReview 200 [] (submit "nope" true None) oneCandidate = (NotFound, oneCandidate).
Proof.
  split.
  - apply (review_rejections_write_nothing 200 [true]
             (mkReviewDecision (Some "") (Some true) None) oneCandidate).
    right. left. reflexivity.
  - destruct (review_rejections_write_nothing 200 [] (submit "nope" true None)
                oneCandidate) as [_ H].
    assert (Hne : "nope" <> "") by discriminate.
    destruct (H "nope" true eq_refl Hne eq_refl eq_refl) as [H1 _]. exact H1.
Defined.

(** The undo handler has no transaction either: when the statement that
    marks the candidate unreviewed throws, the answer is 500 and the
    decision row is gone while the candidates are untouched; a failed
    undo leaves the store as it was or in that state. *)
Theorem undo_failure_keeps_delete db d :
  getLastDecision db = Some d ->
  postUndo [true] db = (StorageFailure, db) /\
  postUndo [false; true] db = (StorageFailure, db) /\
  postUndo [false; false; true] db = (StorageFailure, deleteDecision db (d_id d)) /\
  email_candidates (deleteDecision db (d_id d)) = email_candidates db /\
  (forall fs db', postUndo fs db = (StorageFailure, db') ->
                  db' = db \/ db' = deleteDecision db (d_id d)).
Proof.
  intros E. unfold postUndo, handle, undoBody, bind, query, exec, run, ret.
  rewrite E. repeat split.
  intros fs db'. destruct fs as [|[|] [|[|] [|[|] fs]]]; rewrite ?E;
    intros [= <-]; tauto.
Qed.

Lemma undo_failure_keeps_delete_witness :
  review_decisions (snd (postUndo [false; false; true] oneRejected)) = [] /\
  countReviewed (snd (postUndo [false; false; true] oneRejected)) = 1.
Proof.
  destruct (undo_failure_keeps_delete oneRejected
              (mkReviewDecisionRecord 1 1 "msg1" 0 150 None)) as (_ & _ & H & _).
  - reflexivity.
  - rewrite H. split; reflexivity.
Defined.

Lemma set_candidates_same db : set_candidates db (email_candidates db) = db.
Proof. destruct db; reflexivity. Qed.

Lemma updateReviewed_absent v cid l :
  ~ In cid (map id l) -> map (updateReviewed v cid) l = l.
Proof.
  intros H. rewrite <- (map_id l) at 2. apply map_ext_in. intros c Hc.
  unfold updateReviewed. destruct (id c =? cid) eqn:E; [|reflexivity].
  apply Z.eqb_eq in E. exfalso. apply H. rewrite <- E. now apply in_map.
Qed.

(** markAsReviewed and markAsUnreviewed with a rowid that no candidate
    has change nothing, and say nothing about it; each of them done twice
    is the same as once; on a stored unreviewed candidate, marking it
    reviewed and then unreviewed gives the store back. *)
Theorem mark_reviewed_round_trip db cid :
  (~ In cid (map id (email_candidates db)) ->
   markAsReviewed db cid = db /\ markAsUnreviewed db cid = db) /\
  markAsReviewed (markAsReviewed db cid) cid = markAsReviewed db cid /\
  markAsUnreviewed (markAsUnreviewed db cid) cid = markAsUnreviewed db cid /\
  (forall c, wf db -> In c (email_candidates db) -> id c = cid -> reviewed c = 0 ->
             markAsUnreviewed (markAsReviewed db cid) cid = db).
Proof.
  split; [|split; [|split]].
  - intros H. unfold markAsReviewed, markAsUnreviewed.
    rewrite !updateReviewed_absent by exact H. split; apply set_candidates_same.
  - unfold markAsReviewed. cbn [set_candidates email_candidates review_decisions
      confirmed_flights seq_candidates seq_decisions seq_confirmed].
    now rewrite updateReviewed_twice.
  - unfold markAsUnreviewed. cbn [set_candidates email_candidates review_decisions
      confirmed_flights seq_candidates seq_decisions seq_confirmed].
    now rewrite updateReviewed_twice.
  - intros c Hwf Hc <- Hrev. unfold markAsReviewed, markAsUnreviewed.
    change (set_candidates db
              (map (updateReviewed 0 (id c))
                 (map (updateReviewed 1 (id c)) (email_candidates db))) = db).
    rewrite updateReviewed_twice, <- Hrev.
    rewrite (updateReviewed_same _ c (wf_ids _ Hwf) Hc). apply set_candidates_same.
Qed.

Lemma mark_reviewed_round_trip_witness :
  markAsReviewed twoCandidates 7 = twoCandidates /\
  markAsUnreviewed (markAsReviewed twoCandidates 2) 2 = twoCandidates.
Proof.
  split.
  - destruct (mark_reviewed_round_trip twoCandidates 7) as [H _].
    apply H. simpl. intros [E|[E|E]]; try discriminate; exact E.
  - destruct (mark_reviewed_round_trip twoCandidates 2) as (_ & _ & _ & H).
    apply (H (mkEmailCandidate 2 "msg2" "uid2" "Delta Flight Itinerary"
                "noreply@delta.com" "2024-01-02" "Your itinerary"
                "<html>Itinerary</html>" "Itinerary" 90
                "[Known airline sender]" 100 0)).
    + apply reachable_wf, reachable_run. constructor.
    + right. left. reflexivity.
    + reflexivity.
    + reflexivity.
Defined.

End Workflow.

(* ================================================================== *)
(** * Further properties of ingestion and search *)

Section IngestAndSearch.
Import JsString Database Storage Routes Spec Spec2 Samples.

Lemma isPresent_ids db c :
  isPresent db c = true <-> In (n_message_id c) (map message_id (email_candidates db)).
Proof.
  unfold isPresent. rewrite existsb_exists, in_map_iff. split.
  - intros [r [Hr E]]. apply String.eqb_eq in E. eauto.
  - intros [r [E Hr]]. exists r. split; [exact Hr|]. now apply String.eqb_eq.
Qed.

Lemma insertCandidate_ids now db c m :
  In m (map message_id (email_candidates (insertCandidate now db c)))
  <-> In m (map message_id (email_candidates db)) \/ m = n_message_id c.
Proof.
  unfold insertCandidate. cbn zeta.
  destruct (existsb (fun r => (message_id r =? n_message_id c)%string)
              (email_candidates db)) eqn:E; cbn [email_candidates].
  - split; [tauto|]. intros [H| ->]; [exact H|].
    now apply (isPresent_ids db c).
  - rewrite map_app, in_app_iff. cbn. intuition congruence.
Qed.

Lemma insertEach_ids clock i cs db m :
  In m (map message_id (email_candidates (insertEach clock i cs db)))
  <-> In m (map message_id (email_candidates db)) \/ In m (map n_message_id cs).
Proof.
  revert i db. induction cs as [|c cs IH]; intros i db; cbn [insertEach map In].
  - tauto.
  - rewrite IH, insertCandidate_ids. intuition congruence.
Qed.

Lemma insertEach_app clock i a b db :
  insertEach clock i (a ++ b)%list db
  = insertEach clock (i + List.length a) b (insertEach clock i a db).
Proof.
  revert i db. induction a as [|x a IH]; intros i db; cbn [app insertEach List.length].
  - now rewrite Nat.add_0_r.
  - rewrite IH. f_equal. lia.
Qed.

Lemma find_last l (x : EmailCandidate) m :
  ~ In m (map message_id l) -> message_id x = m ->
  find (fun r => (message_id r =? m)%string) (l ++ [x]) = Some x.
Proof.
  intros Hn Hx. induction l as [|y l IH]; cbn [app find].
  - rewrite Hx, String.eqb_refl. reflexivity.
  - cbn in Hn. destruct (message_id y =? m)%string eqn:E.
    + apply String.eqb_eq in E. tauto.
    + apply IH. tauto.
Qed.

(** What ingestion stores can be looked up.  After insertCandidates the
    stored identifiers are those stored before and those of the batch;
    and for an identifier that was not stored, the lookup gives the
    columns of its first entry in the batch, with a fresh rowid, reviewed
    = 0 and the time at which the INSERT of that entry ran. *)
Theorem ingest_then_lookup db clock batch :
  let db' := snd (insertCandidates db clock batch) in
  (forall m, In m (map message_id (email_candidates db'))
             <-> In m (map message_id (email_candidates db))
                 \/ In m (map n_message_id batch)) /\
  (forall pre c post,
     batch = (pre ++ c :: post)%list ->
     isPresent db c = false ->
     ~ In (n_message_id c) (map n_message_id pre) ->
     exists rowid,
       seq_candidates db < rowid /\
       getCandidateByMessageId db' (n_message_id c)
       = Some (mkEmailCandidate rowid (n_message_id c) (n_gmail_uid c) (n_subject c)
                 (n_from_email c) (n_msg_date c) (n_preview_text c) (n_html_content c)
                 (n_plain_text c) (n_confidence_score c) (n_detection_reasons c)
                 (clock (List.length pre)) 0)).
Proof.
  cbn zeta. unfold insertCandidates. cbn [snd]. split.
  - intros m. apply insertEach_ids.
  - intros pre c post -> Hnew Hpre.
    rewrite insertEach_app. cbn [insertEach Nat.add].
    set (db1 := insertEach clock 0 pre db).
    assert (Habsent : ~ In (n_message_id c) (map message_id (email_candidates db1))).
    { unfold db1. rewrite insertEach_ids. intros [H|H]; [|contradiction].
      apply (isPresent_ids db c) in H. congruence. }
    assert (Hseq : seq_candidates db <= seq_candidates db1).
    { unfold db1. destruct (each_other_tables clock 0 pre db) as (_ & _ & ->).
      unfold count. lia. }
    exists (seq_candidates db1 + 1). split; [lia|].
    apply each_keeps_row. unfold getCandidateByMessageId, insertCandidate. cbn zeta.
    destruct (existsb (fun r => (message_id r =? n_message_id c)%string)
                (email_candidates db1)) eqn:E.
    + exfalso. apply Habsent. now apply (isPresent_ids db1 c).
    + cbn [email_candidates]. now apply find_last.
Qed.

Lemma ingest_then_lookup_witness :
  option_map (fun r => (subject r, fetched_at r))
    (getCandidateByMessageId
       (snd (insertCandidates oneCandidate (fun i => 200 + Z.of_nat i) [msg1'; msg2])) "msg2")
  = Some ("Delta Flight Itinerary", 201).
Proof.
  destruct (ingest_then_lookup oneCandidate (fun i => 200 + Z.of_nat i) [msg1'; msg2])
    as [_ H].
  destruct (H [msg1'] msg2 []) as (rowid & _ & E).
  - reflexivity.
  - reflexivity.
  - simpl. intros [E|E]; [discriminate|exact E].
  - change (n_message_id msg2) with "msg2" in E. rewrite E. reflexivity.
Defined.

Lemma lowerChar_nul c : (N_of_ascii (lowerChar c) =? 0)%N = (N_of_ascii c =? 0)%N.
Proof. destruct c as [[] [] [] [] [] [] [] []]; reflexivity. Qed.

Lemma noNul_lower s : noNul (asciiLowerCase s) = noNul s.
Proof.
  induction s as [|c s IH]; cbn [asciiLowerCase noNul]; [reflexivity|].
  now rewrite lowerChar_nul, IH.
Qed.

Lemma noNul_cstring s : noNul (Sql.cstring s) = true.
Proof.
  induction s as [|c s IH]; cbn [Sql.cstring]; [reflexivity|].
  destruct (N_of_ascii c =? 0)%N eqn:E; [reflexivity|].
  cbn [noNul]. now rewrite E, IH.
Qed.

Lemma prefix_noNul q s :
  String.prefix q s = true -> noNul s = true -> noNul q = true.
Proof.
  revert s. induction q as [|p q IH]; intros s H Hs; [reflexivity|].
  destruct s as [|c s]; cbn [String.prefix] in H; [discriminate|].
  destruct (ascii_dec p c) as [->|]; [|discriminate].
  cbn [noNul] in *. apply andb_true_iff in Hs as [-> Hs]. exact (IH s H Hs).
Qed.

Lemma includes_noNul s q :
  noNul s = true -> includes s q = true -> noNul q = true.
Proof.
  induction s as [|c s IH]; cbn [includes]; intros Hs H;
    apply orb_true_iff in H as [H|H].
  - exact (prefix_noNul _ _ H Hs).
  - discriminate.
  - exact (prefix_noNul _ _ H Hs).
  - cbn [noNul] in Hs. apply andb_true_iff in Hs as [_ Hs]. exact (IH Hs H).
Qed.

(** A query found in a column, read up to its first NUL, has no NUL. *)
Lemma contained_noNul q s :
  containsNoCase (Sql.cstring s) q = true -> noNul q = true.
Proof.
  unfold containsNoCase. intros H. rewrite <- noNul_lower.
  apply (includes_noNul _ _ (eq_trans (noNul_lower _) (noNul_cstring s)) H).
Qed.

(** For any query, wildcards included, every row of a search is a stored
    candidate in the reviewed state asked for; and no literal match is
    lost to the wildcards: while the store has at most 100 candidates, a
    candidate whose subject, sender or identifier, read up to its first
    NUL character, contains the query as it is written, up to ASCII case,
    is among the results.  The query is the encoding of a text: it does
    not begin in the middle of a character.  A query of at most 49998
    bytes does get results. *)
Theorem search_keeps_literal_matches db text reviewedFilter :
  (shortQuery text = true ->
   exists rows, searchCandidates db text reviewedFilter = Some rows) /\
  (forall rows, searchCandidates db text reviewedFilter = Some rows ->
     (forall r, In r rows ->
        In r (email_candidates db) /\
        match reviewedFilter with
        | Some f => reviewed r = (if f then 1 else 0)
        | None => True
        end) /\
     (forall c, startsChar text = true ->
        countTotalCandidates db <= 100 ->
        In c (email_candidates db) ->
        matchesLiterally text reviewedFilter c = true ->
        In c rows)).
Proof.
  unfold searchCandidates. split.
  { intros Hshort. rewrite (short_pattern _ Hshort). cbn [andb]. eexists. reflexivity. }
  intros rows Hrows.
  destruct (Sql.patternTooComplex _ && existsb _ _); [discriminate|].
  injection Hrows as <-. split.
  - intros r Hr. apply limit_In, orderBy_In, filter_In in Hr as [Hr Hm].
    split; [exact Hr|]. apply andb_true_iff in Hm as [_ Hm].
    destruct reviewedFilter; [now apply Z.eqb_eq|exact I].
  - intros c Hstart Hcount Hc Hm. rewrite limit_all.
    + apply orderBy_In, filter_In. split; [exact Hc|].
      unfold matchesLiterally in Hm. apply andb_true_iff in Hm as [Hm ->].
      rewrite andb_true_r. unfold likeAny.
      apply orb_true_iff in Hm as [Hm|Hm]; [apply orb_true_iff in Hm as [Hm|Hm]|];
        rewrite (like_any_contains _ _ (contained_noNul _ _ Hm) Hstart Hm),
          ?orb_true_r; reflexivity.
    + rewrite orderBy_length. unfold countTotalCandidates, count in Hcount.
      etransitivity; [|exact Hcount]. apply inj_le, filter_length_le.
Qed.

Lemma search_keeps_literal_matches_witness :
  exists rows,
    searchCandidates twoCandidates "UNITED" (Some false) = Some rows /\
    In "msg1" (map message_id rows).
Proof.
  destruct (search_keeps_literal_matches twoCandidates "UNITED" (Some false))
    as [H1 H2].
  destruct H1 as [rows Hrows]; [reflexivity|].
  exists rows. split; [exact Hrows|].
  apply in_map_iff.
  exists (mkEmailCandidate 1 "msg1" "uid1" "United Flight Confirmation"
            "noreply@united.com" "2024-01-01" "Your flight is confirmed"
            "<html>Flight details</html>" "Flight details" 85
            "[Known airline sender]" 100 0).
  split; [reflexivity|].
  apply (H2 rows Hrows).
  - reflexivity.
  - vm_compute. discriminate.
  - left. reflexivity.
  - reflexivity.
Defined.

(** The search route answers 400 and runs no statement when q is missing
    or empty; a reviewed parameter other than exactly true or false is
    ignored, the search then runs without a filter; and an answer with
    results leaves the store as it is and carries their number, at most
    100. *)
Theorem search_route_parameters fs q reviewedParam db :
  ((q = None \/ q = Some "") -> getSearch fs q reviewedParam db = (InvalidInput, db)) /\
  (forall r, r <> "true" -> r <> "false" ->
     getSearch fs q (Some r) db = getSearch fs q None db) /\
  (forall rows n db',
     getSearch fs q reviewedParam db = (SearchResults rows n, db') ->
     db' = db /\ n = count rows /\ n <= 100).
Proof.
  split; [|split].
  - intros [-> | ->]; reflexivity.
  - intros r H1 H2. unfold getSearch. destruct q as [text|]; [|reflexivity].
    apply String.eqb_neq in H1, H2. now rewrite H1, H2.
  - intros rows n db'. unfold getSearch. destruct q as [text|]; [|discriminate].
    destruct (text =? "")%string; [discriminate|].
    unfold handle, bind, attempt, run, ret.
    set (filter := match reviewedParam with Some r => _ | None => None end).
    unfold searchCandidates.
    destruct (Sql.patternTooComplex _ && existsb _ _);
      destruct fs as [|[|] fs]; try discriminate; intros [= <- <- <-];
      (split; [reflexivity|split; [reflexivity|]]);
      unfold count; apply limit_length; lia.
Qed.

Lemma search_route_parameters_witness :
  getSearch [] (Some "flight") (Some "TRUE") twoReviewed
  = getSearch [] (Some "flight") None twoReviewed.
Proof.
  destruct (search_route_parameters [] (Some "flight") None twoReviewed) as (_ & H & _).
  apply H; discriminate.
Defined.

End IngestAndSearch.

(* ================================================================== *)
(** * Properties of GET /api/emails/next-batch *)

Section NextBatchFacts.
Import Database Storage Routes Spec Spec2 NextBatch.

Variable json : Type.
Variable JSON_parse : string -> option json.

Lemma traverse_none {A B} (f : A -> option B) l :
  traverse f l = None <-> exists x, In x l /\ f x = None.
Proof.
  induction l as [|y l IH]; cbn [traverse].
  - split; [discriminate|]. intros [x [[] _]].
  - destruct (f y) eqn:E.
    + destruct (traverse f l) as [l0|] eqn:E'.
      * split; [discriminate|]. intros [x [[->|Hx] Hf]]; [congruence|].
        assert (Some l0 = None) as H by (apply IH; eauto).
        discriminate H.
      * split; [|reflexivity]. intros _.
        destruct (proj1 IH eq_refl) as [x [Hx Hf]]. exists x. split; [now right|exact Hf].
    + split; [|reflexivity]. intros _. exists y. split; [now left|exact E].
Qed.




Lemma batchSize_not_zero parsed : batchSize parsed <> 0.
Proof.
  unfold batchSize. destruct parsed as [n|]; [|discriminate].
  destruct (n =? 0) eqn:E; [discriminate|]. apply Z.eqb_neq in E. lia.
Qed.

Lemma limit_nil {A} n (l : list A) : n <> 0 -> Sql.limit n l = [] -> l = [].
Proof.
  intros Hn. unfold Sql.limit. destruct (n <? 0) eqn:E; [tauto|].
  apply Z.ltb_ge in E. destruct (Z.to_nat n) eqn:En; [lia|].
  destruct l; [reflexivity|discriminate].
Qed.


Lemma batchSize_small parsed : batchSize parsed <= 100.
Proof. unfold batchSize. lia. Qed.

(** What the statement of the batch gives for the size the handler asks. *)
Lemma batch_rows db parsed :
  - 2 ^ 63 < batchSize parsed ->
  getUnreviewedCandidates db (JsString.Int (batchSize parsed))
  = Some (Sql.limit (batchSize parsed)
            (Sql.orderBy byScoreThenDate (filter isUnreviewed (email_candidates db)))).
Proof.
  intros H. unfold getUnreviewedCandidates.
  rewrite bindLimit_accepts; [reflexivity|].
  split; [exact H|]. pose proof (batchSize_small parsed). lia.
Qed.

Lemma batch_refused db parsed :
  batchSize parsed <= - 2 ^ 63 ->
  getUnreviewedCandidates db (JsString.Int (batchSize parsed)) = None.
Proof.
  intros H. unfold getUnreviewedCandidates.
  rewrite bindLimit_rejects; [reflexivity|now left].
Qed.

Lemma batch_empty_iff db parsed :
  Sql.limit (batchSize parsed)
    (Sql.orderBy byScoreThenDate (filter isUnreviewed (email_candidates db))) = []
  <-> countUnreviewed db = 0.
Proof.
  unfold countUnreviewed, count. split.
  - intros H. apply limit_nil in H; [|apply batchSize_not_zero].
    assert (Hl := orderBy_length byScoreThenDate (filter isUnreviewed (email_candidates db))).
    rewrite H in Hl. cbn in Hl. lia.
  - intros H. destruct (filter isUnreviewed (email_candidates db)); [|discriminate].
    destruct (batchSize parsed <? 0) eqn:E; unfold Sql.limit; rewrite E; cbn;
      [reflexivity|apply firstn_nil].
Qed.

(** The batch size is never 0, so for a batch size that SQLite accepts
    as a limit (one above -2^63; it is at most 100) the handler says that
    no emails are left exactly when no unreviewed candidate is left (no
    statement failing); the store is not touched. *)
Theorem next_batch_done_iff parsed db :
  - 2 ^ 63 < batchSize parsed ->
  (getNextBatch json JSON_parse [] parsed db = (NoMoreEmails json, db)
   <-> countUnreviewed db = 0).
Proof.
  intros Hsize. rewrite <- (batch_empty_iff db parsed).
  unfold getNextBatch, nextBatchBody, bind, attempt, query, run, ret, throwing.
  rewrite (batch_rows db parsed Hsize).
  destruct (Sql.limit (batchSize parsed) _) as [|c l] eqn:E.
  - tauto.
  - split; [|discriminate].
    destruct (traverse _ (c :: l)); discriminate.
Qed.

(** One stored candidate whose detection_reasons JSON.parse rejects makes
    the whole batch fail: with no statement failing by itself, the
    handler answers 500 exactly when the batch size is one that SQLite
    refuses as a limit (at or below -2^63) or some candidate of the
    selected batch has such a column. *)
Theorem next_batch_fails_on_bad_reasons parsed db :
  fst (getNextBatch json JSON_parse [] parsed db) = BatchFailure json
  <-> batchSize parsed <= - 2 ^ 63 \/
      exists rows c,
        getUnreviewedCandidates db (JsString.Int (batchSize parsed)) = Some rows /\
        In c rows /\ JSON_parse (detection_reasons c) = None.
Proof.
  unfold getNextBatch, nextBatchBody, bind, attempt, query, run, ret, throwing.
  destruct (Z_le_gt_dec (batchSize parsed) (- 2 ^ 63)) as [Hout|Hin].
  { rewrite (batch_refused db parsed Hout). cbn [fst]. split; [now left|reflexivity]. }
  rewrite (batch_rows db parsed) by lia.
  destruct (Sql.limit (batchSize parsed) _) as [|c l] eqn:E.
  - cbn. split; [discriminate|]. intros [H|(rows & x & [= <-] & [] & _)]. lia.
  - destruct (traverse (toCard json JSON_parse) (c :: l)) as [cards|] eqn:Et; cbn [fst].
    + split; [discriminate|]. intros [H|(rows & x & [= <-] & Hx & Hf)]; [lia|].
      assert (traverse (toCard json JSON_parse) (c :: l) = None) as Hn.
      { apply traverse_none. exists x. split; [exact Hx|]. unfold toCard. now rewrite Hf. }
      congruence.
    + split; [|reflexivity]. intros _. right.
      apply traverse_none in Et as [x [Hx Hf]]. exists (c :: l), x.
      split; [reflexivity|]. split; [exact Hx|].
      unfold toCard in Hf. destruct (JSON_parse (detection_reasons x)); [discriminate|].
      reflexivity.
Qed.


End NextBatchFacts.

Section NextBatchWitnesses.
Import Database Storage Routes Spec Spec2 NextBatch Samples Samples2.

Lemma next_batch_done_iff_witness :
  countUnreviewed initDatabase = 0.
Proof.
  apply (next_batch_done_iff (list string) parseReasons None initDatabase).
  - reflexivity.
  - reflexivity.
Defined.

Lemma next_batch_fails_on_bad_reasons_witness :
  fst (getNextBatch (list string) parseReasons [] (Some 5) threeCards)
  = BatchFailure (list string).
Proof.
  apply (next_batch_fails_on_bad_reasons (list string) parseReasons (Some 5) threeCards).
  right. eexists. exists (mkEmailCandidate 3 "card3" "uid3" "Receipt" "noreply@aa.com"
            "2024-01-03" "Receipt" "<html>Receipt</html>" "Receipt" 95 "" 100 0).
  split; [reflexivity|]. split; [left; reflexivity|reflexivity].
Defined.


End NextBatchWitnesses.

(* ================================================================== *)
(** * Further properties of the decision log and of ingestion *)

Section LogAndIngestion.
Import Database Storage Routes Spec Spec2 Samples.

(** getLastDecision gives nothing exactly when the log is empty, and
    otherwise a row of the log whose reviewed_at no other row exceeds. *)
Theorem last_decision_is_latest db :
  (getLastDecision db = None <-> review_decisions db = []) /\
  (forall d, getLastDecision db = Some d ->
     In d (review_decisions db) /\
     forall d', In d' (review_decisions db) -> reviewed_at d' <= reviewed_at d).
Proof.
  split; [apply getLastDecision_none|].
  intros d H. destruct (getLastDecision_latest _ _ H) as [Hin Hmax].
  split; [exact Hin|]. now apply Forall_forall.
Qed.

Lemma last_decision_is_latest_witness :
  In (mkReviewDecisionRecord 2 2 "msg2" 0 160 None) (review_decisions twoReviewed).
Proof.
  destruct (last_decision_is_latest twoReviewed) as [_ H].
  destruct (H (mkReviewDecisionRecord 2 2 "msg2" 0 160 None)) as [Hin _].
  - reflexivity.
  - exact Hin.
Defined.

Lemma insertCandidate_appends now db c :
  exists extra,
    email_candidates (insertCandidate now db c) = (email_candidates db ++ extra)%list /\
    Forall (fun r => reviewed r = 0 /\ fetched_at r = now) extra /\
    (List.length extra <= 1)%nat /\
    review_decisions (insertCandidate now db c) = review_decisions db /\
    confirmed_flights (insertCandidate now db c) = confirmed_flights db.
Proof.
  unfold insertCandidate. cbn zeta.
  destruct (existsb (fun r => (message_id r =? n_message_id c)%string)
              (email_candidates db)).
  - exists []. rewrite app_nil_r. cbn [email_candidates review_decisions confirmed_flights].
    repeat split; [constructor|cbn [List.length]; lia].
  - eexists. cbn [email_candidates review_decisions confirmed_flights].
    split; [reflexivity|]. split; [constructor; [split; reflexivity|constructor]|].
    split; [cbn [List.length]; lia|]. split; reflexivity.
Qed.

Lemma insertEach_appends clock i batch db :
  exists extra,
    email_candidates (insertEach clock i batch db) = (email_candidates db ++ extra)%list /\
    Forall (fun r => reviewed r = 0 /\
                     exists j, (i <= j < i + List.length batch)%nat /\
                               fetched_at r = clock j) extra /\
    review_decisions (insertEach clock i batch db) = review_decisions db /\
    confirmed_flights (insertEach clock i batch db) = confirmed_flights db /\
    (List.length extra <= List.length batch)%nat.
Proof.
  revert i db. induction batch as [|c cs IH]; intros i db; cbn [insertEach].
  - exists []. rewrite app_nil_r. repeat split; constructor.
  - destruct (insertCandidate_appends (clock i) db c) as (e1 & E1 & F1 & L1 & D1 & C1).
    destruct (IH (S i) (insertCandidate (clock i) db c)) as (e2 & E2 & F2 & D2 & C2 & L2).
    exists (e1 ++ e2)%list. rewrite E2, E1, app_assoc, D2, D1, C2, C1.
    split; [reflexivity|]. split; [|split; [reflexivity|split; [reflexivity|]]].
    + apply Forall_app. split.
      * eapply Forall_impl; [|exact F1]. intros r [Hr Hf]. split; [exact Hr|].
        exists i. split; [cbn [List.length]; lia|exact Hf].
      * eapply Forall_impl; [|exact F2]. intros r [Hr (j & Hj & Hf)]. split; [exact Hr|].
        exists j. split; [cbn [List.length]; lia|exact Hf].
    + rewrite length_app. cbn [List.length]. lia.
Qed.

(** Ingestion only appends: the rows stored before stay as they are, in
    their order and with their reviewed flags, each new row is unreviewed
    and stamped with the time at which an INSERT of the batch ran, and
    the decision log and confirmed_flights are not touched; so
    countReviewed is unchanged and countUnreviewed grows by the number of
    new rows. *)
Theorem ingest_only_appends db clock batch :
  let db' := snd (insertCandidates db clock batch) in
  exists extra,
    email_candidates db' = (email_candidates db ++ extra)%list /\
    Forall (fun r => reviewed r = 0 /\
                     exists j, (j < List.length batch)%nat /\ fetched_at r = clock j)
           extra /\
    review_decisions db' = review_decisions db /\
    confirmed_flights db' = confirmed_flights db /\
    countReviewed db' = countReviewed db /\
    countUnreviewed db' = countUnreviewed db + count extra /\
    count extra <= count batch.
Proof.
  cbn zeta. unfold insertCandidates. cbn [snd].
  destruct (insertEach_appends clock 0 batch db) as (extra & E & F & D & C & L).
  exists extra.
  assert (F0 : Forall (fun r => reviewed r = 0) extra).
  { eapply Forall_impl; [|exact F]. now intros r [Hr _]. }
  repeat split; try assumption.
  - eapply Forall_impl; [|exact F]. intros r [Hr (j & Hj & Hf)]. split; [exact Hr|].
    exists j. split; [lia|exact Hf].
  - unfold countReviewed. rewrite E, filter_app.
    rewrite (filter_none isReviewed extra), app_nil_r; [reflexivity|].
    rewrite Forall_forall in F0. intros x Hx. unfold isReviewed.
    now rewrite (F0 x Hx).
  - unfold countUnreviewed, count. rewrite E, filter_app, length_app.
    rewrite (forallb_filter_id isUnreviewed extra); [lia|].
    apply forallb_forall. rewrite Forall_forall in F0. intros x Hx. unfold isUnreviewed.
    now rewrite (F0 x Hx).
  - unfold count. lia.
Qed.

End LogAndIngestion.
